(** * Name extraction and cross-document verification (app.py)

    A shallow embedding of the name-extraction pipeline of [app.py]: the value
    normalizer, the three extraction strategies, the name formatter, the
    per-image resolver [process_image] and the two folder aggregations
    ([validate_folder] and [compare_names_in_folder]).

    Python strings are sequences of Unicode code points, dictionaries with
    string keys are finite maps, and the [try]/[except] of [process_image] is
    an error monad whose handler is written out. *)

From stdpp Require Import gmap list fin_maps strings.
From Stdlib Require Import NArith.

Local Open Scope N_scope.

(** ** Python strings *)

(** A [str] is its sequence of code points, so that [len], indexing and
    equality are those of Python. *)
Abbreviation str := (list N).

(** String literals of this file are written as UTF-8 text and decoded. *)
Fixpoint utf8_decode (bs : list N) : str :=
  match bs with
  | [] => []
  | b0 :: r0 =>
    if b0 <? 128 then b0 :: utf8_decode r0
    else if b0 <? 224 then
      match r0 with
      | b1 :: r1 => ((b0 - 192) * 64 + (b1 - 128)) :: utf8_decode r1
      | _ => []
      end
    else if b0 <? 240 then
      match r0 with
      | b1 :: b2 :: r2 =>
        ((b0 - 224) * 4096 + (b1 - 128) * 64 + (b2 - 128)) :: utf8_decode r2
      | _ => []
      end
    else
      match r0 with
      | b1 :: b2 :: b3 :: r3 =>
        ((b0 - 240) * 262144 + (b1 - 128) * 4096 + (b2 - 128) * 64 + (b3 - 128))
          :: utf8_decode r3
      | _ => []
      end
  end.

Definition lit (s : string) : str :=
  utf8_decode (Ascii.N_of_ascii <$> String.list_ascii_of_string s).

Definition ch_newline : N := 10.
Definition ch_space : N := 32.
Definition ch_slash : N := 47.
Definition ch_colon : N := 58.
Definition ch_underscore : N := 95.

(** [c.isspace()] for one code point: the white-space table of CPython,
    which [str.strip()] and [str.split()] without argument use. *)
Definition isspace (c : N) : bool :=
  ((9 <=? c) && (c <=? 13)) || ((28 <=? c) && (c <=? 32))
  || (c =? 133) || (c =? 160) || (c =? 5760)
  || ((8192 <=? c) && (c <=? 8202))
  || (c =? 8232) || (c =? 8233) || (c =? 8239) || (c =? 8287) || (c =? 12288).

Fixpoint lstrip (s : str) : str :=
  match s with
  | [] => []
  | c :: s' => if isspace c then lstrip s' else s
  end.

Definition rstrip (s : str) : str := rev (lstrip (rev s)).

(** [s.strip()] *)
Definition strip (s : str) : str := rstrip (lstrip s).

(** [s.startswith(p)] *)
Fixpoint startswith (p s : str) : bool :=
  match p, s with
  | [], _ => true
  | _ :: _, [] => false
  | a :: p', b :: s' => (a =? b) && startswith p' s'
  end.

(** [sub in s] *)
Fixpoint contains (sub s : str) : bool :=
  startswith sub s
  || match s with
     | [] => false
     | _ :: s' => contains sub s'
     end.

(** [s.split(sep)] for a non-empty [sep]: separators are found from the left
    and do not overlap. [skip] counts the characters of a separator that
    was matched and is still to be passed over, [cur] is the current piece,
    last character first. *)
Fixpoint split_go (sep : str) (skip : nat) (cur : str) (s : str) : list str :=
  match s with
  | [] => [rev cur]
  | c :: s' =>
    match skip with
    | S k => split_go sep k cur s'
    | O =>
      if startswith sep s
      then rev cur :: split_go sep (pred (length sep)) [] s'
      else split_go sep 0 (c :: cur) s'
    end
  end.

Definition split (sep s : str) : list str := split_go sep 0 [] s.

(** [sep.join(parts)] *)
Fixpoint join (sep : str) (parts : list str) : str :=
  match parts with
  | [] => []
  | [p] => p
  | p :: rest => p ++ sep ++ join sep rest
  end.

(** [s.replace(old, new)] for a non-empty [old]. *)
Definition replace (old new s : str) : str := join new (split old s).

(** [s.split()]: the maximal runs of characters that are not white space. *)
Fixpoint split_ws_go (cur : str) (s : str) : list str :=
  match s with
  | [] => match cur with [] => [] | _ => [rev cur] end
  | c :: s' =>
    if isspace c
    then match cur with
         | [] => split_ws_go [] s'
         | _ => rev cur :: split_ws_go [] s'
         end
    else split_ws_go (c :: cur) s'
  end.

Definition split_ws (s : str) : list str := split_ws_go [] s.

(** Truth value of a string: [bool(s)]. *)
Definition str_truthy (s : str) : bool :=
  match s with
  | [] => false
  | _ => true
  end.

(** The case tables of the Unicode database, which the program reaches through
    [str.lower()] and [str.isupper()], are taken as given. *)
Class CaseTables := {
  lower : str → str;
  isupper : str → bool
}.

(** The tables restricted to Latin-1: on strings whose code points are all
    below U+0100 these are the functions of CPython. *)
Definition latin1_is_upper (c : N) : bool :=
  ((65 <=? c) && (c <=? 90)) || ((192 <=? c) && (c <=? 222) && negb (c =? 215)).

Definition latin1_is_lower (c : N) : bool :=
  ((97 <=? c) && (c <=? 122)) || (c =? 170) || (c =? 181) || (c =? 186)
  || ((223 <=? c) && (c <=? 255) && negb (c =? 247)).

Definition latin1_lower (s : str) : str :=
  (λ c, if latin1_is_upper c then c + 32 else c) <$> s.

Definition latin1_isupper (s : str) : bool :=
  forallb (λ c, negb (latin1_is_lower c)) s && existsb latin1_is_upper s.

Definition latin1 : CaseTables :=
  {| lower := latin1_lower; isupper := latin1_isupper |}.

(** ** Exceptions *)

Inductive exn :=
  | ValueError
  | IndexError
  | OcrError (what : str).

Inductive res (A : Type) :=
  | Ok (a : A)
  | Raise (e : exn).
Arguments Ok {A} a.
Arguments Raise {A} e.

#[global] Instance res_ret : MRet res := λ A a, Ok a.
#[global] Instance res_bind : MBind res := λ A B f m,
  match m with
  | Ok a => f a
  | Raise e => Raise e
  end.

(** [try: body  except Exception: handler] *)
Definition try_except {A} (body : res A) (handler : exn → A) : A :=
  match body with
  | Ok a => a
  | Raise e => handler e
  end.

(** [s.split(sep)] raises [ValueError] on an empty separator. *)
Definition py_split (sep s : str) : res (list str) :=
  match sep with
  | [] => Raise ValueError
  | _ => Ok (split sep s)
  end.

(** [l[i]] for [0 <= i] *)
Definition item {A} (l : list A) (i : nat) : res A :=
  match l !! i with
  | Some x => Ok x
  | None => Raise IndexError
  end.

(** [l[-1]] *)
Definition item_last {A} (l : list A) : res A :=
  match last l with
  | Some x => Ok x
  | None => Raise IndexError
  end.

(** A [for] loop whose body updates [s] and may raise. *)
Fixpoint for_each {A S} (body : S → A → res S) (s : S) (xs : list A) : res S :=
  match xs with
  | [] => Ok s
  | x :: xs' => s' ← body s x; for_each body s' xs'
  end.

(** ** The name extractors *)

Definition kw_prenom : str := Eval vm_compute in lit "Prénom".
Definition kw_nom : str := Eval vm_compute in lit "Nom".
Definition kw_candidat : str := Eval vm_compute in lit "Le candidat(e)".

Definition keywords : list str := [kw_prenom; kw_nom; kw_candidat].

(** [bool(d)] for a dictionary *)
Definition dict_truthy (d : gmap str str) : bool := negb (bool_decide (d = ∅)).

Definition normalize_value (value : str) : str :=
  strip (replace [ch_colon] [] value).

Definition reformat_name (name_info : gmap str str) : option str :=
  match name_info !! kw_prenom, name_info !! kw_nom with
  | Some prenom, Some nom =>
    Some (normalize_value prenom ++ [ch_space] ++ normalize_value nom)
  | _, _ =>
    match name_info !! kw_candidat with
    | Some candidat =>
      let full_name := normalize_value candidat in
      let parts := split_ws full_name in
      match parts with
      | [p0; p1] => Some (p1 ++ [ch_space] ++ p0)
      | _ => Some full_name
      end
    | None => None
    end
  end.

(** The inner loop of [extract_names]: the first keyword found in the line
    is recorded and ends the loop ([break]). *)
Fixpoint scan_keywords (line : str) (kws : list str) (name_info : gmap str str)
  : res (gmap str str) :=
  match kws with
  | [] => Ok name_info
  | keyword :: kws' =>
    if contains keyword line
    then
      pieces ← py_split keyword line;
      tail ← item_last pieces;
      Ok (<[keyword := strip tail]> name_info)
    else scan_keywords line kws' name_info
  end.

Definition extract_names (text : str) (keywords : list str) : res (gmap str str) :=
  lines ← py_split [ch_newline] text;
  for_each (λ name_info line, scan_keywords line keywords name_info) ∅ lines.

(** ** The OCR collaborator

    The OCR engine is outside the program: for an image path it either raises
    or returns a document, which offers a rendered transcript and a hierarchy
    of pages, blocks, lines and words. *)

Record word := { value : str }.
Record line := { words : list word }.
Record block := { lines : list line }.
Record page := { blocks : list block }.
Record document := { pages : list page; render : str }.

(** [DocumentFile.from_images(image_path)], [model(doc)] and
    [result.render()] taken together. *)
Class OcrEngine := { run_ocr : str → res document }.

Section Pipeline.
Context `{CaseTables} `{OcrEngine}.

(** The word strings of a document in reading order. *)
Definition word_values (result : document) : list str :=
  page ← pages result; block ← blocks page; line ← lines block;
  value <$> words line.

(** The test of [extract_capital_words] on one word. *)
Definition is_capital_word (word_text : str) : bool :=
  isupper word_text && bool_decide (2 < length word_text)%nat.

Definition extract_capital_words (result : document) : list str :=
  foldl (λ capital_words page,
    foldl (λ capital_words block,
      foldl (λ capital_words line,
        foldl (λ capital_words word,
          let word_text := value word in
          if is_capital_word word_text
          then capital_words ++ [word_text]
          else capital_words)
        capital_words (words line))
      capital_words (lines block))
    capital_words (blocks page))
  [] (pages result).

Definition s_nom : str := Eval vm_compute in lit "nom".
Definition s_prenom_accent : str := Eval vm_compute in lit "prénom".
Definition s_prenom : str := Eval vm_compute in lit "prenom".
Definition s_candidat : str := Eval vm_compute in lit "candidat".

(** The first statement of the body of the last fallback loop of
    [process_image]: [if ':' in line: ...]. *)
Definition assign_by_colon (line : str) (name_info : gmap str str)
  : res (gmap str str) :=
  if contains [ch_colon] line
  then
    parts ← py_split [ch_colon] line;
    part0 ← item parts 0;
    let key := lower (strip part0) in
    part1 ← item parts 1;
    let value := strip part1 in
    if contains s_nom key
    then Ok (<[kw_nom := value]> name_info)
    else if contains s_prenom_accent key || contains s_prenom key
    then Ok (<[kw_prenom := value]> name_info)
    else Ok name_info
  else Ok name_info.

(** The second statement: [if 'candidat' in line.lower() and ...]. *)
Definition assign_candidat (lines : list str) (i : nat) (line : str)
    (name_info : gmap str str) : res (gmap str str) :=
  if contains s_candidat (lower line) && bool_decide (i + 1 < length lines)%nat
  then
    next ← item lines (i + 1);
    Ok (<[kw_candidat := strip next]> name_info)
  else Ok name_info.

(** The body of that loop for the line [line] at index [i] of [lines]. *)
Definition colon_step (lines : list str) (name_info : gmap str str)
    (entry : nat * str) : res (gmap str str) :=
  let '(i, line) := entry in
  name_info ← assign_by_colon line name_info;
  assign_candidat lines i line name_info.

(** The part of [process_image] under "Additional fallback": the loop
    over the transcript lines and the test that follows it. *)
Definition colon_fallback (extracted_text : str) (name_info : gmap str str)
  : res (option (gmap str str)) :=
  lines ← py_split [ch_newline] extracted_text;
  name_info ← for_each (colon_step lines) name_info (imap pair lines);
  if dict_truthy name_info then Ok (Some name_info) else Ok None.

(** The [try] block of [process_image]; [Ok None] is the fall-through to
    the final [return None]. *)
Definition process_image_try (image_path : str) : res (option (gmap str str)) :=
  result ← run_ocr image_path;
  let extracted_text := render result in
  name_info ← extract_names extracted_text keywords;
  if dict_truthy name_info
  then Ok (Some name_info)
  else
    let capital_words := extract_capital_words result in
    if bool_decide (7 ≤ length capital_words)%nat
    then
      prenom ← item capital_words 5;
      nom ← item capital_words 6;
      Ok (Some {[ kw_prenom := prenom; kw_nom := nom ]})
    else colon_fallback extracted_text name_info.

(** The handler of [process_image] prints a message and goes on to the final
    [return None]. *)
Definition process_image (image_path : str) : option (gmap str str) :=
  try_except (process_image_try image_path) (λ _, None).

(** ** Folder verification *)

(** [os.path.basename] on POSIX paths: what follows the last slash. *)
Fixpoint basename (p : str) : str :=
  match p with
  | [] => []
  | _ :: p' => if contains [ch_slash] p then basename p' else p
  end.

(** [bool(x)] where [x] is [None] or a string *)
Definition name_truthy (x : option str) : bool :=
  match x with
  | Some s => str_truthy s
  | None => false
  end.

(** [reformat_name(names) if names else None] *)
Definition format_if_any (names : option (gmap str str)) : option str :=
  match names with
  | Some d => if dict_truthy d then reformat_name d else None
  | None => None
  end.

(** What both folder loops keep of one image: the formatted name, when
    there is one and it is truthy. *)
Definition extracted_name_of (image_path : str) : option str :=
  let formatted_name := format_if_any (process_image image_path) in
  if name_truthy formatted_name then formatted_name else None.

(** [all(name == first_name for name in extracted_names)] *)
Definition all_equal_to (first_name : str) (extracted_names : list str) : bool :=
  forallb (λ name, bool_decide (name = first_name)) extracted_names.

(** A sub-directory as the file system collaborator lists it: its name and
    the image paths the three glob patterns found in it. *)
Record folder := { subdir : str; image_paths : list str }.

Record file_detail := {
  file : str;
  extracted_name : option str;
  raw_data : option (gmap str str)
}.

Record error_record := { error_file : str; error : str }.

Record folder_result := {
  cin : str;
  is_correct : bool;
  verified_name : option str;
  errors : list error_record;
  file_details : list file_detail
}.

Definition msg_no_name : str := Eval vm_compute in lit "No name could be extracted".
Definition msg_mismatch_prefix : str := Eval vm_compute in lit "Name mismatch: found '".
Definition msg_mismatch_suffix : str := Eval vm_compute in lit "'".

Definition no_name_error (detail : file_detail) : error_record :=
  {| error_file := file detail; error := msg_no_name |}.

Definition mismatch_error (detail : file_detail) (name : str) : error_record :=
  {| error_file := file detail;
     error := msg_mismatch_prefix ++ name ++ msg_mismatch_suffix |}.


Definition is_mismatch_error (e : error_record) : bool :=
  startswith msg_mismatch_prefix (error e).

(** Body of the loop "Process each image in the folder". *)
Definition visit_image (acc : list str * list file_detail) (image_path : str)
  : list str * list file_detail :=
  let '(extracted_names, file_details) := acc in
  let names := process_image image_path in
  let formatted_name := format_if_any names in
  let file_details :=
    file_details ++ [{| file := basename image_path;
                        extracted_name := formatted_name;
                        raw_data := names |}] in
  match formatted_name with
  | Some name =>
    if str_truthy name
    then (extracted_names ++ [name], file_details)
    else (extracted_names, file_details)
  | None => (extracted_names, file_details)
  end.

(** The entry of [file_details] for one image. *)
Definition file_detail_of (image_path : str) : file_detail :=
  {| file := basename image_path;
     extracted_name := format_if_any (process_image image_path);
     raw_data := process_image image_path |}.

(** A file detail has a name when its [extracted_name] is truthy. *)
Definition has_name (detail : file_detail) : bool :=
  name_truthy (extracted_name detail).

(** Body of the loop "Generate errors for mismatches": the records one
    [detail] appends to [errors]. *)
Definition detail_errors (is_correct : bool) (first_name : str)
    (detail : file_detail) : list error_record :=
  if negb (name_truthy (extracted_name detail))
  then [no_name_error detail]
  else
    match extracted_name detail with
    | Some name =>
      if negb is_correct && negb (bool_decide (name = first_name))
      then [mismatch_error detail name]
      else []
    | None => []
    end.

(** One iteration of the loop over [subdirs] in [validate_folder]; [None]
    is the [continue] taken for a folder without images. *)
Definition validate_subdir (f : folder) : option folder_result :=
  match image_paths f with
  | [] => None
  | _ =>
    let '(extracted_names, file_details) :=
      foldl visit_image ([], []) (image_paths f) in
    let '(is_correct, verified_name, errors) :=
      match extracted_names with
      | first_name :: _ =>
        let is_correct := all_equal_to first_name extracted_names in
        let verified_name := if is_correct then Some first_name else None in
        let errors :=
          foldl (λ errors detail,
                   errors ++ detail_errors is_correct first_name detail)
                [] file_details in
        (is_correct, verified_name, errors)
      | [] => (false, None, [])
      end in
    let cin :=
      if contains [ch_underscore] (subdir f)
      then default [] (head (split [ch_underscore] (subdir f)))
      else subdir f in
    Some {| cin := cin;
            is_correct := is_correct;
            verified_name := verified_name;
            errors := errors;
            file_details := file_details |}
  end.

(** The list [results] that [validate_folder] serializes. *)
Definition validate_folder (subdirs : list folder) : list folder_result :=
  omap validate_subdir subdirs.

End Pipeline.

(** ** The standalone batch comparison *)

Module Batch.
Section Batch.
Context `{CaseTables} `{OcrEngine}.

Record processed_file := { file : str; extracted_name : str }.

Record student_record := {
  cin : str;
  folder_name : str;
  extracted_names : list str;
  is_correct : bool;
  verified_name : option str;
  files_processed : list processed_file
}.

(** Body of the loop over [image_paths]: [student_result] is updated in
    place only when both [names] and [formatted_name] are truthy. *)
Definition visit_image (student_result : student_record) (image_path : str)
  : student_record :=
  let names := process_image image_path in
  match names with
  | Some d =>
    if dict_truthy d
    then
      match reformat_name d with
      | Some formatted_name =>
        if str_truthy formatted_name
        then
          {| cin := cin student_result;
             folder_name := folder_name student_result;
             extracted_names := extracted_names student_result ++ [formatted_name];
             is_correct := is_correct student_result;
             verified_name := verified_name student_result;
             files_processed :=
               files_processed student_result
               ++ [{| file := basename image_path;
                      extracted_name := formatted_name |}] |}
        else student_result
      | None => student_result
      end
    else student_result
  | None => student_result
  end.

(** The entry of [files_processed] for one image, if it gets one. *)
Definition processed_file_of (image_path : str) : option processed_file :=
  formatted_name ← extracted_name_of image_path;
  Some {| file := basename image_path; extracted_name := formatted_name |}.

Definition s_unknown : str := Eval vm_compute in lit "Unknown".

(** The comparison after the loop, which sets [is_correct] and
    [verified_name]. *)
Definition conclude (student_result : student_record) : student_record :=
  match extracted_names student_result with
  | first_name :: _ =>
    if all_equal_to first_name (extracted_names student_result)
    then
      {| cin := cin student_result;
         folder_name := folder_name student_result;
         extracted_names := extracted_names student_result;
         is_correct := true;
         verified_name := Some first_name;
         files_processed := files_processed student_result |}
    else student_result
  | [] => student_result
  end.

(** One iteration of the loop over [subdirs]; [None] is the [continue]. *)
Definition compare_subdir (f : folder) : option student_record :=
  match image_paths f with
  | [] => None
  | _ =>
    let cin :=
      if contains [ch_underscore] (subdir f)
      then default [] (head (split [ch_underscore] (subdir f)))
      else s_unknown in
    let student_result :=
      {| cin := cin;
         folder_name := subdir f;
         extracted_names := [];
         is_correct := false;
         verified_name := None;
         files_processed := [] |} in
    Some (conclude (foldl visit_image student_result (image_paths f)))
  end.

(** The list [results] that [compare_names_in_folder] serializes. *)
Definition compare_names_in_folder (subdirs : list folder) : list student_record :=
  omap compare_subdir subdirs.

End Batch.
End Batch.

(** ** Sample documents *)

Definition text_lines (ls : list str) : str := join [ch_newline] ls.

Definition plain_document (text : str) : document :=
  {| pages := []; render := text |}.

Definition one_line_page (ws : list str) : page :=
  {| blocks := [{| lines := [{| words := (λ w, {| value := w |}) <$> ws |}] |}] |}.

Definition doc_jean : document :=
  plain_document (text_lines [lit "Prénom: Jean"; lit "Nom: Dupont"]).

Definition doc_marie : document :=
  plain_document (text_lines [lit "Prénom: Marie"; lit "Nom: Durand"]).

Definition doc_unaccented : document := plain_document (lit "Prenom: Jean").

Definition doc_blank : document := plain_document [].

Definition doc_capitals : document :=
  {| pages := [one_line_page [lit "ROYAUME"; lit "DU"; lit "MAROC"; lit "Carte";
                              lit "NATIONALE"; lit "IDENTITE"; lit "CIN"];
               one_line_page [lit "DUPONT"; lit "JEAN"; lit "né"; lit "RABAT"]];
     render := lit "ROYAUME DU MAROC" |}.

Definition sample_files : list (str * res document) :=
  [(lit "/up/AB1_Jean/a.png", Ok doc_jean);
   (lit "/up/AB1_Jean/b.png", Ok doc_jean);
   (lit "/up/AB1_Jean/c.jpg", Ok doc_marie);
   (lit "/up/AB1_Jean/d.jpg", Ok doc_blank);
   (lit "/up/AB1_Jean/e.jpeg", Ok doc_unaccented);
   (lit "/up/AB1_Jean/f.jpeg", Ok doc_capitals)].

(** An engine that knows the sample files and raises on any other path. *)
Definition sample_engine : OcrEngine :=
  {| run_ocr image_path :=
       default (Raise (OcrError image_path))
               (snd <$> (snd <$> list_find (λ e, e.1 = image_path) sample_files)) |}.

Definition folder_jean : folder :=
  {| subdir := lit "AB1_Jean";
     image_paths := [lit "/up/AB1_Jean/d.jpg"; lit "/up/AB1_Jean/a.png";
                     lit "/up/AB1_Jean/c.jpg"; lit "/up/AB1_Jean/b.png"] |}.

Definition folder_agreeing : folder :=
  {| subdir := lit "AB1_Jean";
     image_paths := [lit "/up/AB1_Jean/a.png"; lit "/up/AB1_Jean/b.png"] |}.

Definition folder_unreadable : folder :=
  {| subdir := lit "AB1_Jean";
     image_paths := [lit "/up/AB1_Jean/d.jpg"; lit "/up/AB1_Jean/missing.png"] |}.

Definition folder_partly_blank : folder :=
  {| subdir := lit "AB1_Jean";
     image_paths := [lit "/up/AB1_Jean/a.png"; lit "/up/AB1_Jean/d.jpg";
                     lit "/up/AB1_Jean/b.png"] |}.

Definition folder_jean_reordered : folder :=
  {| subdir := lit "AB1_Jean";
     image_paths := [lit "/up/AB1_Jean/c.jpg"; lit "/up/AB1_Jean/b.png";
                     lit "/up/AB1_Jean/d.jpg"; lit "/up/AB1_Jean/a.png"] |}.

Definition folder_plain_name : folder :=
  {| subdir := lit "Jean"; image_paths := [lit "/up/Jean/a.png"] |}.

(** * Properties *)

(** One step of a computation in [res]: a bind on a value that is known. *)
Ltac res_step := cbn [mbind res_bind mret res_ret].

(** ** Strings *)

Example lit_decodes_utf8 : lit "Prénom" = [80; 114; 233; 110; 111; 109].
Proof. reflexivity. Qed.

Example split_leftmost_first :
  split (lit "ab") (lit "xabyabab") = [lit "x"; lit "y"; []; []].
Proof. reflexivity. Qed.

Example split_without_separator : split [ch_colon] (lit "Jean") = [lit "Jean"].
Proof. reflexivity. Qed.

Example strip_unicode_space : strip ([160; 9] ++ lit "a b" ++ [32; 10]) = lit "a b".
Proof. reflexivity. Qed.

Example split_ws_runs : split_ws (lit "  Dupont   Jean ") = [lit "Dupont"; lit "Jean"].
Proof. reflexivity. Qed.

Example basename_of_path : basename (lit "/up/AB1_Jean/a.png") = lit "a.png".
Proof. reflexivity. Qed.

Example reformat_three_tokens :
  reformat_name {[ kw_candidat := lit "Jean Paul Dupont" ]} = Some (lit "Jean Paul Dupont").
Proof. vm_compute. reflexivity. Qed.

Example colon_fallback_candidat_line :
  @colon_fallback latin1 (text_lines [lit "Infos candidat"; lit "Jean Dupont"]) ∅
  = Ok (Some {[ kw_candidat := lit "Jean Dupont" ]}).
Proof. vm_compute. reflexivity. Qed.

Example colon_fallback_nom_line :
  @colon_fallback latin1 (lit "nom: Dupont") ∅ = Ok (Some {[ kw_nom := lit "Dupont" ]}).
Proof. vm_compute. reflexivity. Qed.

Lemma startswith_spec (p s : str) :
  startswith p s = true ↔ ∃ t, s = p ++ t.
Proof.
  revert s. induction p as [|a p IH]; intros s; simpl.
  - split; eauto.
  - destruct s as [|b s]; simpl.
    + split; [discriminate | intros [t Ht]; discriminate].
    + rewrite andb_true_iff, N.eqb_eq, IH. split.
      * intros [-> [t ->]]. eauto.
      * intros [t Ht]. injection Ht as -> ->. eauto.
Qed.

Lemma startswith_app (p t : str) : startswith p (p ++ t) = true.
Proof. apply startswith_spec. eauto. Qed.

Lemma contains_spec (sub s : str) :
  contains sub s = true ↔ ∃ l r, s = l ++ sub ++ r.
Proof.
  induction s as [|c s IH]; simpl.
  - rewrite orb_false_r, startswith_spec. split.
    + intros [t Ht]. exists [], t. done.
    + intros [l [r Hs]]. destruct l; [eauto | discriminate].
  - rewrite orb_true_iff, startswith_spec, IH. split.
    + intros [[t Ht] | [l [r Hs]]].
      * exists [], t. done.
      * exists (c :: l), r. by rewrite Hs.
    + intros [[|c' l] [r Hs]].
      * left. eauto.
      * right. injection Hs as -> ->. eauto.
Qed.

Lemma contains_trans (a b s : str) :
  contains a b = true → contains b s = true → contains a s = true.
Proof.
  rewrite !contains_spec. intros [l1 [r1 ->]] [l2 [r2 ->]].
  exists (l2 ++ l1), (r1 ++ r2). by rewrite <- !app_assoc.
Qed.

Lemma lstrip_Forall (P : N → Prop) (s : str) : Forall P s → Forall P (lstrip s).
Proof.
  induction 1 as [|c s Hc Hs IH]; simpl; [constructor|].
  destruct (isspace c); [done | by constructor].
Qed.

Lemma strip_Forall (P : N → Prop) (s : str) : Forall P s → Forall P (strip s).
Proof.
  intros Hs. unfold strip, rstrip.
  apply Forall_rev, lstrip_Forall, Forall_rev, lstrip_Forall, Hs.
Qed.

Lemma lstrip_head (s : str) :
  lstrip s = [] ∨ ∃ c t, lstrip s = c :: t ∧ isspace c = false.
Proof.
  induction s as [|c s IH]; simpl; [by left|].
  destruct (isspace c) eqn:Hc; [done | right; eauto].
Qed.

Lemma lstrip_app_visible (u v : str) (c : N) :
  isspace c = false → lstrip (u ++ c :: v) = lstrip u ++ c :: v.
Proof.
  intros Hc. induction u as [|x u IH]; simpl.
  - by rewrite Hc.
  - destruct (isspace x); done.
Qed.

Lemma lstrip_idemp (s : str) : lstrip (lstrip s) = lstrip s.
Proof.
  destruct (lstrip_head s) as [-> | (c & t & -> & Hc)]; simpl; [done|].
  by rewrite Hc.
Qed.

Lemma rstrip_idemp (s : str) : rstrip (rstrip s) = rstrip s.
Proof. unfold rstrip. by rewrite rev_involutive, lstrip_idemp. Qed.

Lemma rstrip_cons_visible (c : N) (t : str) :
  isspace c = false → rstrip (c :: t) = c :: rstrip t.
Proof.
  intros Hc. unfold rstrip. simpl rev at 2.
  rewrite (lstrip_app_visible _ [] c Hc), rev_app_distr. done.
Qed.

Lemma strip_idemp (s : str) : strip (strip s) = strip s.
Proof.
  unfold strip at 2 3.
  destruct (lstrip_head s) as [-> | (c & t & -> & Hc)]; [done|].
  rewrite (rstrip_cons_visible c t Hc). unfold strip. simpl.
  by rewrite Hc, (rstrip_cons_visible c _ Hc), rstrip_idemp.
Qed.

Lemma join_nil (parts : list str) : join [] parts = concat parts.
Proof.
  induction parts as [|p [|q rest] IH]; simpl in *; [done| |].
  - by rewrite app_nil_r.
  - by rewrite IH.
Qed.

Lemma split_go_char (c : N) (cur s : str) :
  concat (split_go [c] 0 cur s) = rev cur ++ filter (λ x, x ≠ c) s.
Proof.
  revert cur. induction s as [|x s IH]; intros cur; simpl.
  - by rewrite !app_nil_r.
  - destruct (N.eqb_spec c x) as [<- | Hne]; simpl.
    + rewrite IH. rewrite filter_cons_False by (intros Hn; by apply Hn). done.
    + rewrite IH. rewrite filter_cons_True by congruence.
      simpl. by rewrite <- app_assoc.
Qed.

Lemma replace_char_nil (c : N) (s : str) :
  replace [c] [] s = filter (λ x, x ≠ c) s.
Proof. unfold replace, split. by rewrite join_nil, split_go_char. Qed.

Lemma filter_all {A} (P : A → Prop) `{∀ x, Decision (P x)} (l : list A) :
  Forall P l → filter P l = l.
Proof.
  induction 1 as [|x l Hx Hl IH]; [done|].
  by rewrite filter_cons_True, IH.
Qed.

Lemma normalize_value_no_colon (x : str) :
  Forall (λ c, c ≠ ch_colon) (normalize_value x).
Proof.
  unfold normalize_value. apply strip_Forall. rewrite replace_char_nil.
  apply Forall_forall. intros c Hc. by apply list_elem_of_filter in Hc as [? _].
Qed.

Lemma normalize_value_idemp (x : str) :
  normalize_value (normalize_value x) = normalize_value x.
Proof.
  unfold normalize_value at 1. rewrite replace_char_nil.
  rewrite filter_all by apply normalize_value_no_colon.
  unfold normalize_value. apply strip_idemp.
Qed.

(** ** Operations that cannot raise *)

Lemma split_go_length (sep : str) (skip : nat) (cur s : str) :
  (1 ≤ length (split_go sep skip cur s))%nat.
Proof.
  revert skip cur. induction s as [|c s IH]; intros skip cur; simpl; [lia|].
  destruct skip; [|apply IH].
  destruct (startswith sep (c :: s)); simpl; [lia | apply IH].
Qed.

Lemma split_contains_length (sep s : str) :
  sep ≠ [] → contains sep s = true → (2 ≤ length (split sep s))%nat.
Proof.
  intros Hsep. unfold split. generalize (@nil N) as cur.
  induction s as [|c s IH]; intros cur; simpl.
  - destruct sep; [done | discriminate].
  - destruct (startswith sep (c :: s)) eqn:Hp; simpl.
    + intros _. pose proof (split_go_length sep (pred (length sep)) [] s). lia.
    + apply IH.
Qed.

Lemma item_last_split (sep s : str) :
  ∃ tail, item_last (split sep s) = Ok tail.
Proof.
  unfold item_last, split.
  pose proof (split_go_length sep 0 [] s) as Hlen.
  destruct (split_go sep 0 [] s) as [|p ps] eqn:Hs using rev_ind; [simpl in Hlen; lia|].
  rewrite last_snoc. eauto.
Qed.

Lemma item_lt {A} (l : list A) (i : nat) :
  (i < length l)%nat → ∃ x, l !! i = Some x ∧ item l i = Ok x.
Proof.
  intros Hi. unfold item. destruct (lookup_lt_is_Some_2 l i Hi) as [x Hx].
  rewrite Hx. eauto.
Qed.

Lemma for_each_total {A S} (body : S → A → res S) (xs : list A) (s : S) :
  (∀ s x, ∃ s', body s x = Ok s') → ∃ s', for_each body s xs = Ok s'.
Proof.
  intros Hbody. revert s. induction xs as [|x xs IH]; intros s; simpl; [eauto|].
  destruct (Hbody s x) as [s' ->]. simpl. apply IH.
Qed.

(** What one line contributes in [extract_names]: the first keyword of the
    priority list that occurs in it. *)
Lemma scan_keywords_total (line : str) (kws : list str) (name_info : gmap str str) :
  Forall (λ k, k ≠ []) kws →
  ∃ d, scan_keywords line kws name_info = Ok d.
Proof.
  induction 1 as [|k kws Hk Hkws IH]; simpl; [eauto|].
  destruct (contains k line); [|done].
  unfold py_split. destruct k as [|c k]; [done|]. simpl.
  destruct (item_last_split (c :: k) line) as [tail ->]. simpl. eauto.
Qed.

Lemma keywords_nonempty : Forall (λ k : str, k ≠ []) keywords.
Proof. repeat constructor; discriminate. Qed.

Lemma extract_names_total (text : str) :
  ∃ d, extract_names text keywords = Ok d.
Proof.
  unfold extract_names.
  apply (for_each_total (λ name_info line, scan_keywords line keywords name_info)).
  intros s x. apply scan_keywords_total, keywords_nonempty.
Qed.

Section PipelineFacts.
Context `{CaseTables} `{OcrEngine}.

(** On a line with a colon the two index accesses of [assign_by_colon]
    succeed, and the statement reduces to its chain of substring tests. *)
Lemma assign_by_colon_parts (line : str) (name_info : gmap str str) :
  contains [ch_colon] line = true →
  ∃ part0 part1,
    split [ch_colon] line !! 0%nat = Some part0
    ∧ split [ch_colon] line !! 1%nat = Some part1
    ∧ assign_by_colon line name_info
      = if contains s_nom (lower (strip part0))
        then Ok (<[kw_nom := strip part1]> name_info)
        else if contains s_prenom_accent (lower (strip part0))
                || contains s_prenom (lower (strip part0))
        then Ok (<[kw_prenom := strip part1]> name_info)
        else Ok name_info.
Proof.
  intros Hc. unfold assign_by_colon. rewrite Hc.
  pose proof (split_contains_length [ch_colon] line ltac:(done) Hc) as Hlen.
  change (py_split [ch_colon] line) with (Ok (split [ch_colon] line)).
  destruct (item_lt (split [ch_colon] line) 0 ltac:(lia)) as (p0 & Hl0 & Hp0).
  destruct (item_lt (split [ch_colon] line) 1 ltac:(lia)) as (p1 & Hl1 & Hp1).
  exists p0, p1. res_step. rewrite Hp0. res_step. by rewrite Hp1.
Qed.

Lemma assign_by_colon_total (line : str) (name_info : gmap str str) :
  ∃ d, assign_by_colon line name_info = Ok d.
Proof.
  destruct (contains [ch_colon] line) eqn:Hc.
  - destruct (assign_by_colon_parts line name_info Hc) as (p0 & p1 & _ & _ & ->).
    repeat case_match; eauto.
  - unfold assign_by_colon. rewrite Hc. eauto.
Qed.

Lemma assign_candidat_total (lines : list str) (i : nat) (line : str)
    (name_info : gmap str str) :
  ∃ d, assign_candidat lines i line name_info = Ok d.
Proof.
  unfold assign_candidat.
  destruct (contains s_candidat (lower line)); simpl; [|eauto].
  case_bool_decide as Hi; simpl; [|eauto].
  destruct (item_lt lines (i + 1) Hi) as (next & _ & ->). simpl. eauto.
Qed.

Lemma colon_step_total (lines : list str) (name_info : gmap str str)
    (entry : nat * str) :
  ∃ d, colon_step lines name_info entry = Ok d.
Proof.
  destruct entry as [i line]. unfold colon_step.
  destruct (assign_by_colon_total line name_info) as [d ->].
  apply assign_candidat_total.
Qed.

Lemma colon_fallback_total (text : str) (name_info : gmap str str) :
  ∃ r, colon_fallback text name_info = Ok r.
Proof.
  unfold colon_fallback.
  change (py_split [ch_newline] text) with (Ok (split [ch_newline] text)).
  res_step.
  destruct (for_each_total (colon_step (split [ch_newline] text))
              (imap pair (split [ch_newline] text)) name_info
              (colon_step_total _)) as [d ->].
  simpl. destruct (dict_truthy d); eauto.
Qed.

(** ** The capitalized words *)

Lemma foldl_snoc_bind {A B} (g : list B → A → list B) (h : A → list B)
    (l : list A) (acc : list B) :
  (∀ acc x, g acc x = acc ++ h x) → foldl g acc l = acc ++ (l ≫= h).
Proof.
  intros Hg. revert acc. induction l as [|x l IH]; intros acc; simpl.
  - by rewrite app_nil_r.
  - by rewrite IH, Hg, <- app_assoc.
Qed.

Lemma filter_bind {A B} (P : B → Prop) `{∀ x, Decision (P x)}
    (f : A → list B) (l : list A) :
  filter P (l ≫= f) = l ≫= (λ x, filter P (f x)).
Proof.
  induction l as [|x l IH]; [done|].
  by rewrite !bind_cons, filter_app, IH.
Qed.

Lemma extract_capital_words_filter (result : document) :
  extract_capital_words result
  = filter (λ w, is_capital_word w = true) (word_values result).
Proof.
  unfold extract_capital_words, word_values.
  rewrite (foldl_snoc_bind _
    (λ page, filter (λ w, is_capital_word w = true)
       (block ← blocks page; line ← lines block; value <$> words line))).
  { simpl. by rewrite filter_bind. }
  intros acc page.
  rewrite (foldl_snoc_bind _
    (λ block, filter (λ w, is_capital_word w = true)
       (line ← lines block; value <$> words line))).
  { by rewrite filter_bind. }
  clear acc. intros acc block.
  rewrite (foldl_snoc_bind _
    (λ line, filter (λ w, is_capital_word w = true) (value <$> words line))).
  { by rewrite filter_bind. }
  clear acc. intros acc line.
  rewrite (foldl_snoc_bind _
    (λ word, if is_capital_word (value word) then [value word] else [])).
  { f_equal. induction (words line) as [|w ws IH]; [done|].
    rewrite bind_cons, fmap_cons, IH.
    destruct (is_capital_word (value w)) eqn:Hw.
    - by rewrite filter_cons_True.
    - rewrite filter_cons_False; [done | by rewrite Hw]. }
  clear acc. intros acc word. simpl.
  destruct (is_capital_word (value word)); [done | by rewrite app_nil_r].
Qed.

End PipelineFacts.

(** ** The folder loops *)

Lemma all_equal_to_spec (first_name : str) (names : list str) :
  all_equal_to first_name names = true ↔ ∀ n, n ∈ names → n = first_name.
Proof.
  unfold all_equal_to. induction names as [|x names IH]; simpl.
  - split; [|done]. intros _ n Hn. by apply elem_of_nil in Hn.
  - rewrite andb_true_iff, bool_decide_eq_true. destruct IH as [IH1 IH2]. split.
    + intros [Hx Hall] n [Hn | Hn]%elem_of_cons; [congruence | auto].
    + intros Hall. split; [|apply IH2; intros n Hn]; apply Hall; set_solver.
Qed.

Lemma mismatch_message_not_no_name (name : str) :
  msg_mismatch_prefix ++ name ++ msg_mismatch_suffix ≠ msg_no_name.
Proof. unfold msg_mismatch_prefix, msg_no_name. simpl. discriminate. Qed.

Lemma mismatch_message_inj (a b : str) :
  msg_mismatch_prefix ++ a ++ msg_mismatch_suffix
  = msg_mismatch_prefix ++ b ++ msg_mismatch_suffix → a = b.
Proof. intros Heq. by apply app_inv_head, app_inv_tail in Heq. Qed.

Section FolderFacts.
Context `{CaseTables} `{OcrEngine}.

Lemma visit_image_step (p : str) (names : list str) (details : list file_detail) :
  visit_image (names, details) p
  = (names ++ option_list (extracted_name_of p), details ++ [file_detail_of p]).
Proof.
  unfold visit_image, extracted_name_of, file_detail_of.
  destruct (format_if_any (process_image p)) as [n|]; simpl.
  - destruct (str_truthy n); simpl; by rewrite ?app_nil_r.
  - by rewrite app_nil_r.
Qed.

Lemma visit_image_fold (paths : list str) (names : list str)
    (details : list file_detail) :
  foldl visit_image (names, details) paths
  = (names ++ omap extracted_name_of paths,
     details ++ (file_detail_of <$> paths)).
Proof.
  revert names details.
  induction paths as [|p paths IH]; intros names details.
  - simpl. by rewrite !app_nil_r.
  - cbn [foldl]. rewrite visit_image_step, IH, <- !app_assoc.
    simpl. by destruct (extracted_name_of p).
Qed.

(** The names kept for the comparison are those of the file details that
    have one, in order. *)
Lemma kept_names_of_details (paths : list str) :
  omap extracted_name_of paths
  = omap (λ d, if has_name d then extracted_name d else None)
         (file_detail_of <$> paths).
Proof.
  induction paths as [|p paths IH]; [done|].
  rewrite fmap_cons. cbn [omap list_omap]. by rewrite <- IH.
Qed.

Lemma errors_fold (is_correct : bool) (first_name : str)
    (details : list file_detail) :
  foldl (λ errors detail, errors ++ detail_errors is_correct first_name detail)
        [] details
  = details ≫= detail_errors is_correct first_name.
Proof. by rewrite (foldl_snoc_bind _ (detail_errors is_correct first_name)). Qed.

(** What [validate_folder] reports for a folder that has images. *)
Lemma validate_subdir_fields (f : folder) :
  image_paths f ≠ [] →
  ∃ r, validate_subdir f = Some r
    ∧ file_details r = file_detail_of <$> image_paths f
    ∧ match omap extracted_name_of (image_paths f) with
      | first_name :: rest =>
        is_correct r = all_equal_to first_name (first_name :: rest)
        ∧ verified_name r = (if is_correct r then Some first_name else None)
        ∧ errors r = file_details r ≫= detail_errors (is_correct r) first_name
      | [] => is_correct r = false ∧ verified_name r = None ∧ errors r = []
      end.
Proof.
  intros Hne. unfold validate_subdir.
  destruct (image_paths f) as [|p ps]; [done|]. cbv beta iota.
  generalize (p :: ps). intros paths.
  rewrite visit_image_fold, !app_nil_l.
  destruct (omap extracted_name_of paths) as [|first_name rest];
    eexists; (split; [reflexivity|]); cbn [file_details is_correct verified_name errors];
    [done|].
  by rewrite errors_fold.
Qed.

Lemma detail_errors_no_name (c : bool) (first_name : str) (d : file_detail) :
  has_name d = false → detail_errors c first_name d = [no_name_error d].
Proof. unfold has_name, detail_errors. by intros ->. Qed.

Lemma detail_errors_named (c : bool) (first_name name : str) (d : file_detail) :
  has_name d = true → extracted_name d = Some name →
  detail_errors c first_name d
  = if negb c && negb (bool_decide (name = first_name))
    then [mismatch_error d name] else [].
Proof. unfold has_name, detail_errors. by intros -> ->. Qed.

Lemma has_name_Some (d : file_detail) :
  has_name d = true → ∃ name, extracted_name d = Some name ∧ str_truthy name = true.
Proof.
  unfold has_name. destruct (extracted_name d) as [n|]; simpl; [eauto | done].
Qed.


Lemma mismatch_errors_of (first_name : str) (details : list file_detail) :
  filter (λ e, is_mismatch_error e = true) (details ≫= detail_errors false first_name)
  = omap (λ d, name ← extracted_name d;
               if str_truthy name && negb (bool_decide (name = first_name))
               then Some (mismatch_error d name) else None) details.
Proof.
  induction details as [|d details IH]; [done|].
  rewrite bind_cons, filter_app, IH. clear IH. simpl omap.
  destruct (has_name d) eqn:Hd.
  - destruct (has_name_Some d Hd) as (name & Hname & Ht).
    rewrite (detail_errors_named false first_name name d Hd Hname).
    rewrite Hname. cbn [mbind option_bind negb andb]. rewrite Ht. cbn [andb].
    destruct (bool_decide (name = first_name)); cbn [negb]; [done|].
    rewrite filter_cons_True; [done|].
    apply (startswith_app msg_mismatch_prefix).
  - rewrite (detail_errors_no_name false first_name d Hd).
    rewrite filter_cons_False by (unfold is_mismatch_error; simpl; done).
    unfold has_name in Hd. destruct (extracted_name d) as [name|]; simpl in *; [|done].
    by rewrite Hd.
Qed.

End FolderFacts.

Section BatchFacts.
Context `{CaseTables} `{OcrEngine}.

Lemma batch_visit_image_step (sr : Batch.student_record) (p : str) :
  Batch.visit_image sr p
  = match extracted_name_of p with
    | Some formatted_name =>
      {| Batch.cin := Batch.cin sr;
         Batch.folder_name := Batch.folder_name sr;
         Batch.extracted_names := Batch.extracted_names sr ++ [formatted_name];
         Batch.is_correct := Batch.is_correct sr;
         Batch.verified_name := Batch.verified_name sr;
         Batch.files_processed :=
           Batch.files_processed sr
           ++ [{| Batch.file := basename p;
                  Batch.extracted_name := formatted_name |}] |}
    | None => sr
    end.
Proof.
  unfold Batch.visit_image, extracted_name_of, format_if_any.
  destruct (process_image p) as [d|]; [|done].
  destruct (dict_truthy d); [|done].
  destruct (reformat_name d) as [n|]; [|done]. simpl.
  by destruct (str_truthy n).
Qed.

Lemma batch_visit_image_fold (paths : list str) (sr : Batch.student_record) :
  let sr' := foldl Batch.visit_image sr paths in
  Batch.extracted_names sr'
  = Batch.extracted_names sr ++ omap extracted_name_of paths
  ∧ Batch.files_processed sr'
    = Batch.files_processed sr ++ omap Batch.processed_file_of paths
  ∧ Batch.is_correct sr' = Batch.is_correct sr
  ∧ Batch.verified_name sr' = Batch.verified_name sr.
Proof.
  revert sr. induction paths as [|p paths IH]; intros sr.
  - simpl. by rewrite !app_nil_r.
  - cbn [foldl]. cbv zeta.
    destruct (IH (Batch.visit_image sr p)) as (-> & -> & -> & ->).
    rewrite batch_visit_image_step. cbn [omap list_omap].
    unfold Batch.processed_file_of at 2.
    destruct (extracted_name_of p) as [n|]; simpl; [|done].
    by rewrite <- !app_assoc.
Qed.

(** What [compare_names_in_folder] reports for a folder that has images. *)
Lemma compare_subdir_fields (f : folder) :
  image_paths f ≠ [] →
  ∃ r, Batch.compare_subdir f = Some r
    ∧ Batch.extracted_names r = omap extracted_name_of (image_paths f)
    ∧ Batch.files_processed r = omap Batch.processed_file_of (image_paths f)
    ∧ match Batch.extracted_names r with
      | first_name :: rest =>
        Batch.is_correct r = all_equal_to first_name (first_name :: rest)
        ∧ Batch.verified_name r
          = (if Batch.is_correct r then Some first_name else None)
      | [] => Batch.is_correct r = false ∧ Batch.verified_name r = None
      end.
Proof.
  intros Hne. unfold Batch.compare_subdir.
  destruct (image_paths f) as [|p ps]; [done|]. cbv beta iota zeta.
  generalize (p :: ps). intros paths.
  eexists. split; [reflexivity|].
  match goal with |- context [foldl Batch.visit_image ?s paths] =>
    destruct (batch_visit_image_fold paths s) as (Hn & Hf & Hc & Hv);
    set (sr := foldl Batch.visit_image s paths) in *
  end.
  simpl in Hn, Hf, Hc, Hv. unfold Batch.conclude.
  destruct (Batch.extracted_names sr) as [|first_name rest] eqn:Hnames.
  - rewrite Hnames. by rewrite <- Hn, <- Hf, Hc, Hv.
  - destruct (all_equal_to first_name (first_name :: rest)) eqn:Hall;
      cbn [Batch.extracted_names Batch.files_processed Batch.is_correct
           Batch.verified_name].
    + by rewrite Hall.
    + by rewrite Hnames, Hc, Hv, Hall.
Qed.

End BatchFacts.

(** The verdict computed from a non-empty list of names. *)
Lemma verdict_spec (first_name : str) (rest : list str) :
  all_equal_to first_name (first_name :: rest) = true
  ↔ first_name :: rest ≠ []
    ∧ ∀ a b, a ∈ first_name :: rest → b ∈ first_name :: rest → a = b.
Proof.
  rewrite all_equal_to_spec. split.
  - intros Hall. split; [done|]. intros a b Ha Hb.
    rewrite (Hall a Ha), (Hall b Hb). done.
  - intros [_ Hall] n Hn. apply Hall; [exact Hn | apply elem_of_cons; by left].
Qed.

(** * The claims *)

(** C9: the value normalizer is idempotent, [normalize(normalize(x)) =
    normalize(x)] for every string [x]; it maps [" foo: "] to ["foo"] and
    leaves ["foo"] as it is. *)
Theorem normalize_value_idempotent :
  (∀ x : str, normalize_value (normalize_value x) = normalize_value x)
  ∧ normalize_value (lit " foo: ") = lit "foo"
  ∧ normalize_value (lit "foo") = lit "foo".
Proof.
  split; [apply normalize_value_idemp|].
  split; vm_compute; reflexivity.
Qed.

(** C7: for a field map without the first-name/last-name pair, the name
    formatter returns absent when the combined-candidate label is missing;
    otherwise it normalizes the value and splits it on white space, returns
    the two tokens in reversed order joined by one space when there are
    exactly two, and the normalized value unchanged for any other count. *)
Theorem reformat_name_combined (name_info : gmap str str) :
  ¬ (is_Some (name_info !! kw_prenom) ∧ is_Some (name_info !! kw_nom)) →
  reformat_name name_info
  = match name_info !! kw_candidat with
    | Some candidat =>
      let full_name := normalize_value candidat in
      let parts := split_ws full_name in
      if bool_decide (length parts = 2%nat)
      then Some (join [ch_space] (reverse parts))
      else Some full_name
    | None => None
    end.
Proof.
  intros Hpair. unfold reformat_name.
  assert (match name_info !! kw_prenom, name_info !! kw_nom with
          | Some _, Some _ => False
          | _, _ => True
          end) as Hcase.
  { destruct (name_info !! kw_prenom), (name_info !! kw_nom); try done.
    apply Hpair. split; eauto. }
  destruct (name_info !! kw_candidat) as [candidat|].
  - cbv zeta.
    assert (match split_ws (normalize_value candidat) with
            | [p0; p1] => Some (p1 ++ [ch_space] ++ p0)
            | _ => Some (normalize_value candidat)
            end
            = if bool_decide (length (split_ws (normalize_value candidat)) = 2%nat)
              then Some (join [ch_space] (reverse (split_ws (normalize_value candidat))))
              else Some (normalize_value candidat)) as <-.
    { destruct (split_ws (normalize_value candidat)) as [|p0 [|p1 [|p2 ps]]];
        try done. }
    destruct (name_info !! kw_prenom), (name_info !! kw_nom); done.
  - destruct (name_info !! kw_prenom), (name_info !! kw_nom); done.
Qed.

Lemma reformat_name_combined_witness :
  ¬ (is_Some (({[ kw_candidat := lit "Dupont Jean" ]} : gmap str str) !! kw_prenom)
     ∧ is_Some (({[ kw_candidat := lit "Dupont Jean" ]} : gmap str str) !! kw_nom))
  ∧ reformat_name {[ kw_candidat := lit "Dupont Jean" ]} = Some (lit "Jean Dupont").
Proof.
  assert (¬ (is_Some (({[ kw_candidat := lit "Dupont Jean" ]} : gmap str str) !! kw_prenom)
     ∧ is_Some (({[ kw_candidat := lit "Dupont Jean" ]} : gmap str str) !! kw_nom)))
    as Hpair.
  { intros [[v Hv] _]. vm_compute in Hv. discriminate Hv. }
  split; [exact Hpair|].
  rewrite (reformat_name_combined {[ kw_candidat := lit "Dupont Jean" ]} Hpair).
  vm_compute. reflexivity.
Defined.

(** C3 as the specification states it does not hold: on the lines
    ["Prénom: Jean"] and ["Nom: Dupont"] the keyword extractor does not return
    the map with the values ["Jean"] and ["Dupont"]. *)
Lemma extract_names_keeps_colon_counterexample :
  extract_names (text_lines [lit "Prénom: Jean"; lit "Nom: Dupont"]) keywords
  ≠ Ok {[ kw_prenom := lit "Jean"; kw_nom := lit "Dupont" ]}.
Proof.
  intros Heq.
  assert (extract_names (text_lines [lit "Prénom: Jean"; lit "Nom: Dupont"]) keywords
          ≫= (λ d, from_option Ok (Raise IndexError) (d !! kw_nom))
          = Ok (lit "Dupont")) as Hnom.
  { rewrite Heq. vm_compute. reflexivity. }
  vm_compute in Hnom. discriminate Hnom.
Qed.

(** C3, amended: on those lines the keyword extractor returns the values with
    the colon that follows the keyword, [": Jean"] and [": Dupont"], and the
    name formatter applied to that map returns ["Jean Dupont"]. *)
Theorem extract_names_then_reformat :
  extract_names (text_lines [lit "Prénom: Jean"; lit "Nom: Dupont"]) keywords
  = Ok {[ kw_prenom := lit ": Jean"; kw_nom := lit ": Dupont" ]}
  ∧ reformat_name {[ kw_prenom := lit ": Jean"; kw_nom := lit ": Dupont" ]}
    = Some (lit "Jean Dupont").
Proof. split; vm_compute; reflexivity. Qed.

(** C4 fails on the code: a key that contains ["prénom"] or ["prenom"] also
    contains ["nom"], which is tested first, so the colon-pattern fallback
    never assigns the first-name label. Whatever the case tables, the
    [if ':' in line] statement leaves the first-name entry as it was; and with
    the Latin-1 tables the line ["Prénom: Jean"] assigns ["Jean"] to the
    last-name label, as does an image whose transcript is ["Prenom: Jean"]. *)
Theorem colon_fallback_prenom_goes_to_nom :
  (∀ (T : CaseTables) (line : str) (name_info : gmap str str),
     ∃ d, assign_by_colon line name_info = Ok d
          ∧ d !! kw_prenom = name_info !! kw_prenom)
  ∧ @assign_by_colon latin1 (lit "Prénom: Jean") ∅ = Ok {[ kw_nom := lit "Jean" ]}
  ∧ @process_image latin1 sample_engine (lit "/up/AB1_Jean/e.jpeg")
    = Some {[ kw_nom := lit "Jean" ]}.
Proof.
  split; [|split; vm_compute; reflexivity].
  intros T line name_info.
  destruct (contains [ch_colon] line) eqn:Hc;
    [|unfold assign_by_colon; rewrite Hc; eauto].
  destruct (assign_by_colon_parts line name_info Hc) as (p0 & p1 & _ & _ & ->).
  destruct (contains s_nom (lower (strip p0))) eqn:Hnom.
  - eexists. split; [reflexivity|]. by rewrite lookup_insert_ne.
  - assert (contains s_prenom_accent (lower (strip p0))
            || contains s_prenom (lower (strip p0)) = false) as ->; [|eauto].
    apply orb_false_iff. split; apply not_true_is_false; intros Hp;
      (eapply contains_trans in Hp; [by rewrite Hnom in Hp | reflexivity]).
Qed.

Section ResolverClaims.
Context `{CaseTables} `{OcrEngine}.

Lemma dict_truthy_false (d : gmap str str) : dict_truthy d = false → d = ∅.
Proof.
  unfold dict_truthy. rewrite negb_false_iff. apply bool_decide_eq_true_1.
Qed.

Lemma process_image_try_ocr (image_path : str) (result : document) :
  run_ocr image_path = Ok result →
  process_image_try image_path
  = (name_info ← extract_names (render result) keywords;
     if dict_truthy name_info
     then Ok (Some name_info)
     else
       if bool_decide (7 ≤ length (extract_capital_words result))%nat
       then
         prenom ← item (extract_capital_words result) 5;
         nom ← item (extract_capital_words result) 6;
         Ok (Some {[ kw_prenom := prenom; kw_nom := nom ]})
       else colon_fallback (render result) name_info).
Proof. intros Hocr. unfold process_image_try. by rewrite Hocr. Qed.

(** C8: the resolver tries keyword-line extraction, then the capitalized-token
    fallback, then the colon-pattern fallback, and returns the first non-empty
    field map; when the OCR step raises, the exception is caught and the
    result is absent; and on a document the OCR step returned, the [try]
    block raises nothing, so the resolver always returns to its caller. *)
Theorem process_image_strategy_order (image_path : str) :
  match run_ocr image_path with
  | Raise e =>
    process_image_try image_path = Raise e ∧ process_image image_path = None
  | Ok result =>
    ∃ by_keyword outcome,
      extract_names (render result) keywords = Ok by_keyword
      ∧ process_image_try image_path = Ok outcome
      ∧ process_image image_path = outcome
      ∧ if dict_truthy by_keyword
        then outcome = Some by_keyword
        else
          if bool_decide (7 ≤ length (extract_capital_words result))%nat
          then
            ∃ w5 w6, extract_capital_words result !! 5%nat = Some w5
                     ∧ extract_capital_words result !! 6%nat = Some w6
                     ∧ outcome = Some {[ kw_prenom := w5; kw_nom := w6 ]}
          else
            ∃ lines by_colon,
              lines = split [ch_newline] (render result)
              ∧ for_each (colon_step lines) ∅ (imap pair lines) = Ok by_colon
              ∧ outcome = if dict_truthy by_colon then Some by_colon else None
  end.
Proof.
  destruct (run_ocr image_path) as [result|e] eqn:Hocr.
  - unfold process_image. rewrite (process_image_try_ocr _ _ Hocr).
    destruct (extract_names_total (render result)) as [by_keyword Hkw].
    rewrite Hkw. res_step.
    destruct (dict_truthy by_keyword) eqn:Htruthy.
    { exists by_keyword, (Some by_keyword). by rewrite Htruthy. }
    apply dict_truthy_false in Htruthy as ->.
    case_bool_decide as Hlen.
    + destruct (item_lt (extract_capital_words result) 5 ltac:(lia)) as (w5 & Hw5 & ->).
      destruct (item_lt (extract_capital_words result) 6 ltac:(lia)) as (w6 & Hw6 & ->).
      res_step. eexists ∅, _. repeat (split; [reflexivity|]).
      change (dict_truthy ∅) with false. cbv iota. eauto.
    + unfold colon_fallback.
      change (py_split [ch_newline] (render result))
        with (Ok (split [ch_newline] (render result))).
      res_step.
      destruct (for_each_total (colon_step (split [ch_newline] (render result)))
                  (imap pair (split [ch_newline] (render result))) ∅
                  (colon_step_total _)) as [by_colon Hcolon].
      rewrite Hcolon. res_step.
      exists ∅, (if dict_truthy by_colon then Some by_colon else None).
      split; [done|]. split; [by destruct (dict_truthy by_colon)|].
      split; [by destruct (dict_truthy by_colon)|].
      change (dict_truthy ∅) with false. cbv iota. eauto.
  - unfold process_image, process_image_try. by rewrite Hocr.
Qed.

(** C6: the capitalized-token fallback keeps, in reading order, the words of
    the document that are upper case and longer than two characters. When the
    keyword strategy found nothing and at least seven words qualify, the
    resolver returns the two-entry map that gives the word at index 5 to the
    first-name label and the word at index 6 to the last-name label; with fewer
    than seven, this stage contributes no entry and the resolver goes on with
    the colon-pattern fallback from the empty map. *)
Theorem capital_word_fallback (image_path : str) (result : document) :
  run_ocr image_path = Ok result →
  extract_names (render result) keywords = Ok ∅ →
  extract_capital_words result
  = filter (λ w, isupper w = true ∧ (2 < length w)%nat) (word_values result)
  ∧ if bool_decide (7 ≤ length (extract_capital_words result))%nat
    then
      ∃ w5 w6, extract_capital_words result !! 5%nat = Some w5
               ∧ extract_capital_words result !! 6%nat = Some w6
               ∧ process_image image_path = Some {[ kw_prenom := w5; kw_nom := w6 ]}
               ∧ size ({[ kw_prenom := w5; kw_nom := w6 ]} : gmap str str) = 2%nat
    else
      process_image image_path
      = try_except (colon_fallback (render result) ∅) (λ _, None).
Proof.
  intros Hocr Hkw. split.
  - rewrite extract_capital_words_filter. apply list_filter_iff. intros w.
    unfold is_capital_word. rewrite andb_true_iff, bool_decide_eq_true. done.
  - unfold process_image. rewrite (process_image_try_ocr _ _ Hocr), Hkw.
    res_step. change (dict_truthy ∅) with false. cbv iota.
    case_bool_decide as Hlen; [|done].
    destruct (item_lt (extract_capital_words result) 5 ltac:(lia)) as (w5 & Hw5 & ->).
    destruct (item_lt (extract_capital_words result) 6 ltac:(lia)) as (w6 & Hw6 & ->).
    exists w5, w6. repeat (split; [done|]).
    rewrite map_size_insert_None, map_size_singleton; [done|].
    by rewrite lookup_singleton_ne.
Qed.

End ResolverClaims.

Lemma capital_word_fallback_witness :
  @run_ocr sample_engine (lit "/up/AB1_Jean/f.jpeg") = Ok doc_capitals
  ∧ extract_names (render doc_capitals) keywords = Ok ∅
  ∧ @process_image latin1 sample_engine (lit "/up/AB1_Jean/f.jpeg")
    = Some {[ kw_prenom := lit "DUPONT"; kw_nom := lit "JEAN" ]}.
Proof.
  assert (@run_ocr sample_engine (lit "/up/AB1_Jean/f.jpeg") = Ok doc_capitals)
    as Hocr by (vm_compute; reflexivity).
  assert (extract_names (render doc_capitals) keywords = Ok ∅)
    as Hkw by (vm_compute; reflexivity).
  split; [exact Hocr|]. split; [exact Hkw|].
  destruct (@capital_word_fallback latin1 sample_engine _ _ Hocr Hkw) as [_ Hpos].
  rewrite bool_decide_eq_true_2 in Hpos by (vm_compute; lia).
  destruct Hpos as (w5 & w6 & Hw5 & Hw6 & -> & _).
  vm_compute in Hw5, Hw6. injection Hw5 as <-. injection Hw6 as <-.
  vm_compute. reflexivity.
Defined.

Section FolderClaims.
Context `{CaseTables} `{OcrEngine}.

Lemma validate_subdir_Some (f : folder) (r : folder_result) :
  validate_subdir f = Some r → image_paths f ≠ [].
Proof. unfold validate_subdir. by destruct (image_paths f). Qed.

(** The entry of an image has a name exactly when a name is kept for it. *)
Lemma has_name_file_detail_of (p : str) :
  has_name (file_detail_of p) = false ↔ extracted_name_of p = None.
Proof.
  unfold has_name, file_detail_of, extracted_name_of. cbn [extracted_name].
  destruct (format_if_any (process_image p)) as [n|]; [|done]. simpl.
  by destruct (str_truthy n).
Qed.

(** The "No name could be extracted" records, read off the image paths. *)
Lemma no_name_records_of_paths (paths : list str) :
  no_name_error <$> filter (λ d, has_name d = false) (file_detail_of <$> paths)
  = (λ p, {| error_file := basename p; error := msg_no_name |})
      <$> filter (λ p, extracted_name_of p = None) paths.
Proof.
  induction paths as [|p paths IH]; [done|]. rewrite fmap_cons.
  destruct (has_name (file_detail_of p)) eqn:Hp.
  - rewrite filter_cons_False by (by rewrite Hp).
    rewrite filter_cons_False; [done|].
    intros Hnone%has_name_file_detail_of. congruence.
  - rewrite filter_cons_True by done.
    rewrite filter_cons_True by (by apply has_name_file_detail_of).
    rewrite !fmap_cons, IH. done.
Qed.

(** The "Name mismatch" records, read off the image paths. *)
Lemma mismatch_records_of_paths (first_name : str) (paths : list str) :
  omap (λ d, name ← extracted_name d;
             if str_truthy name && negb (bool_decide (name = first_name))
             then Some (mismatch_error d name) else None)
       (file_detail_of <$> paths)
  = omap (λ p, name ← extracted_name_of p;
               if bool_decide (name = first_name)
               then None
               else Some {| error_file := basename p;
                            error := msg_mismatch_prefix ++ name
                                     ++ msg_mismatch_suffix |})
         paths.
Proof.
  induction paths as [|p paths IH]; [done|].
  rewrite fmap_cons. cbn [omap list_omap]. rewrite <- IH. clear IH.
  unfold extracted_name_of, file_detail_of at 1 2. cbn [extracted_name].
  destruct (format_if_any (process_image p)) as [n|]; [|done].
  cbn [name_truthy mbind option_bind].
  destruct (str_truthy n); [|done]. cbn [andb mbind option_bind].
  by destruct (bool_decide (n = first_name)).
Qed.

(** C1: for a folder with at least one image, in the folder verifier and in
    the batch comparison alike, [is_correct] is true exactly when at least
    one formatted name was extracted and all extracted names are the same
    string; [verified_name] is that name when [is_correct] is true and absent
    otherwise. *)
Theorem is_correct_iff_names_agree (f : folder) :
  image_paths f ≠ [] →
  let names := omap extracted_name_of (image_paths f) in
  (∃ r, validate_subdir f = Some r
     ∧ (is_correct r = true
        ↔ names ≠ [] ∧ ∀ a b, a ∈ names → b ∈ names → a = b)
     ∧ verified_name r = (if is_correct r then head names else None))
  ∧ (∃ r, Batch.compare_subdir f = Some r
     ∧ (Batch.is_correct r = true
        ↔ names ≠ [] ∧ ∀ a b, a ∈ names → b ∈ names → a = b)
     ∧ Batch.verified_name r = (if Batch.is_correct r then head names else None)).
Proof.
  intros Hne names. split.
  - destruct (validate_subdir_fields f Hne) as (r & Hr & _ & Hverdict).
    exists r. split; [done|]. fold names in Hverdict.
    destruct names as [|first_name rest].
    + destruct Hverdict as (-> & -> & _). split; [|done].
      split; [done | by intros [? _]].
    + destruct Hverdict as (Hc & -> & _). split; [|done].
      rewrite Hc. apply verdict_spec.
  - destruct (compare_subdir_fields f Hne) as (r & Hr & Hnames & _ & Hverdict).
    exists r. split; [done|]. rewrite Hnames in Hverdict. fold names in Hverdict.
    destruct names as [|first_name rest].
    + destruct Hverdict as (-> & ->). split; [|done].
      split; [done | by intros [? _]].
    + destruct Hverdict as (Hc & ->). split; [|done].
      rewrite Hc. apply verdict_spec.
Qed.


(** C5: when the folder is not fully consistent, the "Name mismatch" records
    are, in image order, exactly one for each image of the folder whose
    extracted name differs from the first extracted name, under the base name
    of the image and with the name found; an image whose name is the first
    extracted name gets none, and no record reports a mismatch for the
    baseline name itself. *)
Theorem mismatch_errors_against_baseline (f : folder) (r : folder_result)
    (first_name : str) (rest : list str) :
  validate_subdir f = Some r →
  omap extracted_name_of (image_paths f) = first_name :: rest →
  is_correct r = false →
  file_details r = file_detail_of <$> image_paths f
  ∧ filter (λ e, is_mismatch_error e = true) (errors r)
    = omap (λ p, name ← extracted_name_of p;
                 if bool_decide (name = first_name)
                 then None
                 else Some {| error_file := basename p;
                              error := msg_mismatch_prefix ++ name
                                       ++ msg_mismatch_suffix |})
           (image_paths f)
  ∧ ∀ e, e ∈ errors r →
         error e ≠ msg_mismatch_prefix ++ first_name ++ msg_mismatch_suffix.
Proof.
  intros Hr Hnames Hc.
  destruct (validate_subdir_fields f (validate_subdir_Some f r Hr))
    as (r' & Hr' & Hdetails & Hverdict).
  assert (r' = r) as -> by congruence.
  rewrite Hnames in Hverdict. destruct Hverdict as (_ & _ & Herrors).
  rewrite Hc in Herrors. split; [done|]. split.
  - rewrite Herrors, mismatch_errors_of, Hdetails.
    apply mismatch_records_of_paths.
  - intros e He. rewrite Herrors in He.
    apply list_elem_of_bind in He as (d & He & _).
    destruct (has_name d) eqn:Hd.
    + destruct (has_name_Some d Hd) as (name & Hname & _).
      rewrite (detail_errors_named false first_name name d Hd Hname) in He.
      cbn [negb andb] in He. case_bool_decide as Hneq; cbn [negb] in He.
      * by apply elem_of_nil in He.
      * apply list_elem_of_singleton in He as ->. cbn [error mismatch_error].
        intros Heq. by apply mismatch_message_inj in Heq.
    + rewrite (detail_errors_no_name false first_name d Hd) in He.
      apply list_elem_of_singleton in He as ->. cbn [error no_name_error].
      intros Heq. symmetry in Heq. by apply mismatch_message_not_no_name in Heq.
Qed.

(** C10: in the batch comparison, [files_processed] holds exactly one entry
    for each image from which a formatted name was extracted, in order, with
    that name; an image whose extraction or formatting fails adds nothing to
    it, and the record of the folder has no field for errors. *)
Theorem batch_failures_leave_no_entry (f : folder) :
  image_paths f ≠ [] →
  ∃ r, Batch.compare_subdir f = Some r
    ∧ Batch.files_processed r = omap Batch.processed_file_of (image_paths f)
    ∧ Batch.extracted_name <$> Batch.files_processed r = Batch.extracted_names r
    ∧ ∀ before image_path after,
        image_paths f = before ++ image_path :: after →
        extracted_name_of image_path = None →
        Batch.files_processed r
        = omap Batch.processed_file_of before ++ omap Batch.processed_file_of after.
Proof.
  intros Hne.
  destruct (compare_subdir_fields f Hne) as (r & Hr & Hnames & Hfiles & _).
  exists r. split; [done|]. split; [done|]. split.
  - rewrite Hfiles, Hnames. clear.
    induction (image_paths f) as [|p ps IH]; [done|].
    cbn [omap list_omap]. unfold Batch.processed_file_of at 1.
    destruct (extracted_name_of p) as [n|]; simpl; [|done].
    f_equal. apply IH.
  - intros before image_path after Hsplit Hfail.
    rewrite Hfiles, Hsplit, omap_app. cbn [omap list_omap].
    unfold Batch.processed_file_of at 2. by rewrite Hfail.
Qed.

End FolderClaims.

(** ** The sample folders *)

Example validate_folder_jean :
  @validate_subdir latin1 sample_engine folder_jean
  = Some
      {| cin := lit "AB1";
         is_correct := false;
         verified_name := None;
         errors :=
           [{| error_file := lit "d.jpg"; error := lit "No name could be extracted" |};
            {| error_file := lit "c.jpg";
               error := lit "Name mismatch: found 'Marie Durand'" |}];
         file_details :=
           [{| file := lit "d.jpg"; extracted_name := None; raw_data := None |};
            {| file := lit "a.png";
               extracted_name := Some (lit "Jean Dupont");
               raw_data := Some {[ kw_prenom := lit ": Jean"; kw_nom := lit ": Dupont" ]} |};
            {| file := lit "c.jpg";
               extracted_name := Some (lit "Marie Durand");
               raw_data := Some {[ kw_prenom := lit ": Marie"; kw_nom := lit ": Durand" ]} |};
            {| file := lit "b.png";
               extracted_name := Some (lit "Jean Dupont");
               raw_data := Some {[ kw_prenom := lit ": Jean"; kw_nom := lit ": Dupont" ]} |}]
      |}.
Proof. vm_compute. reflexivity. Qed.

Example validate_folder_unreadable :
  @validate_subdir latin1 sample_engine folder_unreadable
  = Some
      {| cin := lit "AB1";
         is_correct := false;
         verified_name := None;
         errors := [];
         file_details :=
           [{| file := lit "d.jpg"; extracted_name := None; raw_data := None |};
            {| file := lit "missing.png"; extracted_name := None; raw_data := None |}]
      |}.
Proof. vm_compute. reflexivity. Qed.

Example names_of_folder_jean :
  omap (@extracted_name_of latin1 sample_engine) (image_paths folder_jean)
  = [lit "Jean Dupont"; lit "Marie Durand"; lit "Jean Dupont"].
Proof. vm_compute. reflexivity. Qed.

Example names_of_folder_agreeing :
  omap (@extracted_name_of latin1 sample_engine) (image_paths folder_agreeing)
  = [lit "Jean Dupont"; lit "Jean Dupont"].
Proof. vm_compute. reflexivity. Qed.

Lemma is_correct_iff_names_agree_witness :
  image_paths folder_agreeing ≠ []
  ∧ ∃ r, @validate_subdir latin1 sample_engine folder_agreeing = Some r
         ∧ is_correct r = true
         ∧ verified_name r = Some (lit "Jean Dupont").
Proof.
  assert (image_paths folder_agreeing ≠ []) as Hne by discriminate.
  split; [exact Hne|].
  destruct (@is_correct_iff_names_agree latin1 sample_engine folder_agreeing Hne)
    as [(r & Hr & Hiff & Hv) _].
  cbv zeta in Hiff, Hv. rewrite names_of_folder_agreeing in Hiff, Hv.
  assert (is_correct r = true) as Hc.
  { apply Hiff. split; [discriminate|]. intros a b Ha Hb.
    apply elem_of_cons in Ha as [-> | Ha]; [|apply list_elem_of_singleton in Ha as ->];
      (apply elem_of_cons in Hb as [-> | Hb];
        [|apply list_elem_of_singleton in Hb as ->]); reflexivity. }
  exists r. split; [exact Hr|]. split; [exact Hc|].
  rewrite Hc in Hv. exact Hv.
Defined.



Lemma mismatch_errors_against_baseline_witness :
  ∃ r, @validate_subdir latin1 sample_engine folder_jean = Some r
       ∧ is_correct r = false
       ∧ filter (λ e, is_mismatch_error e = true) (errors r)
         = [{| error_file := lit "c.jpg";
               error := lit "Name mismatch: found 'Marie Durand'" |}].
Proof.
  eexists. split; [exact validate_folder_jean|]. split; [reflexivity|].
  destruct (@mismatch_errors_against_baseline latin1 sample_engine folder_jean _
              (lit "Jean Dupont") [lit "Marie Durand"; lit "Jean Dupont"]
              validate_folder_jean names_of_folder_jean eq_refl)
    as (_ & Herrors & _).
  rewrite Herrors. vm_compute. reflexivity.
Defined.

Lemma batch_failures_leave_no_entry_witness :
  image_paths folder_jean ≠ []
  ∧ ∃ r, @Batch.compare_subdir latin1 sample_engine folder_jean = Some r
         ∧ Batch.files_processed r
           = [{| Batch.file := lit "a.png"; Batch.extracted_name := lit "Jean Dupont" |};
              {| Batch.file := lit "c.jpg"; Batch.extracted_name := lit "Marie Durand" |};
              {| Batch.file := lit "b.png"; Batch.extracted_name := lit "Jean Dupont" |}].
Proof.
  assert (image_paths folder_jean ≠ []) as Hne by discriminate.
  split; [exact Hne|].
  destruct (@batch_failures_leave_no_entry latin1 sample_engine folder_jean Hne)
    as (r & Hr & Hfiles & _).
  exists r. split; [exact Hr|]. rewrite Hfiles. vm_compute. reflexivity.
Defined.

(** * Further properties of the pipeline *)

(** ** Splitting on a separator *)

Lemma split_go_skip (sep : str) (skip : nat) (cur s : str) :
  (skip ≤ length s)%nat → split_go sep skip cur s = split_go sep 0 cur (drop skip s).
Proof.
  revert skip. induction s as [|c s IH]; intros skip Hskip.
  - by destruct skip; [|simpl in Hskip; lia].
  - destruct skip as [|k]; [done|]. simpl in *. apply IH. lia.
Qed.

Lemma split_go_match (sep cur t : str) :
  sep ≠ [] → split_go sep 0 cur (sep ++ t) = rev cur :: split_go sep 0 [] t.
Proof.
  intros Hsep. destruct sep as [|c sep]; [done|].
  change ((c :: sep) ++ t) with (c :: (sep ++ t)). cbn [split_go].
  change (c :: sep ++ t) with ((c :: sep) ++ t). rewrite startswith_app.
  cbn [length pred]. rewrite split_go_skip by (rewrite length_app; lia).
  by rewrite drop_app_length.
Qed.

Lemma split_go_miss (sep cur s : str) (c : N) :
  startswith sep (c :: s) = false →
  split_go sep 0 cur (c :: s) = split_go sep 0 (c :: cur) s.
Proof. intros Hmiss. cbn [split_go]. by rewrite Hmiss. Qed.

Lemma last_cons_nonempty {A} (x : A) (l : list A) :
  (1 ≤ length l)%nat → last (x :: l) = last l.
Proof. destruct l; [simpl; lia | done]. Qed.

(** The last piece of a split: the whole string when the separator does not
    occur, and otherwise what follows an occurrence after which there is no
    other. *)
Lemma split_go_last (sep : str) (n : nat) (s cur : str) :
  sep ≠ [] → (length s ≤ n)%nat →
  ∃ tail, last (split_go sep 0 cur s) = Some tail
    ∧ ((contains sep s = false ∧ tail = rev cur ++ s)
       ∨ ∃ pre, s = pre ++ sep ++ tail ∧ contains sep tail = false).
Proof.
  intros Hsep. revert s cur. induction n as [|n IH]; intros s cur Hlen.
  - destruct s; [|simpl in Hlen; lia]. exists (rev cur). split; [done|]. left.
    split; [|by rewrite app_nil_r]. by destruct sep.
  - destruct s as [|c s].
    { exists (rev cur). split; [done|]. left.
      split; [|by rewrite app_nil_r]. by destruct sep. }
    destruct (startswith sep (c :: s)) eqn:Hstart.
    + apply startswith_spec in Hstart as [t Ht]. rewrite Ht.
      rewrite (split_go_match sep cur t Hsep).
      rewrite last_cons_nonempty by apply split_go_length.
      assert (length t ≤ n)%nat as Hn.
      { apply (f_equal length) in Ht. rewrite length_app in Ht. simpl in *.
        destruct sep; [done|]. simpl in Ht. lia. }
      destruct (IH t [] Hn) as (tail & Hlast & Hcase).
      exists tail. split; [done|]. right.
      destruct Hcase as [[Hno ->] | (pre & -> & Hno)].
      * by exists [].
      * exists (sep ++ pre). by rewrite <- app_assoc.
    + rewrite (split_go_miss sep cur s c Hstart).
      destruct (IH s (c :: cur) ltac:(simpl in Hlen; lia)) as (tail & Hlast & Hcase).
      exists tail. split; [done|].
      destruct Hcase as [[Hno ->] | (pre & -> & Hno)].
      * left. split.
        -- cbn [contains]. by rewrite Hstart, Hno.
        -- simpl. by rewrite <- app_assoc.
      * right. by exists (c :: pre).
Qed.

Lemma split_last_after_separator (sep s : str) :
  sep ≠ [] → contains sep s = true →
  ∃ pre tail, item_last (split sep s) = Ok tail
    ∧ s = pre ++ sep ++ tail ∧ contains sep tail = false.
Proof.
  intros Hsep Hin. unfold item_last, split.
  destruct (split_go_last sep (length s) s [] Hsep ltac:(done))
    as (tail & -> & [[Hno _] | (pre & Hs & Hno)]); [congruence|].
  eauto.
Qed.

Lemma split_without_occurrence (sep s : str) :
  sep ≠ [] → contains sep s = false → split sep s = [s].
Proof.
  intros Hsep. unfold split. change [s] with [rev [] ++ s].
  generalize (@nil N) as cur.
  induction s as [|c s IH]; intros cur Hno.
  - simpl. by rewrite app_nil_r.
  - cbn [contains] in Hno. apply orb_false_iff in Hno as [Hstart Hno].
    rewrite (split_go_miss sep cur s c Hstart), (IH _ Hno). simpl.
    by rewrite <- app_assoc.
Qed.

(** ** The loop of [extract_names] *)

Lemma for_each_invariant {A S} (P : S → Prop) (body : S → A → res S)
    (xs : list A) (s s' : S) :
  P s →
  (∀ s x s', x ∈ xs → P s → body s x = Ok s' → P s') →
  for_each body s xs = Ok s' → P s'.
Proof.
  revert s. induction xs as [|x xs IH]; intros s Hs Hstep; simpl.
  - by intros [= <-].
  - destruct (body s x) as [s1|e] eqn:Hbody; [|done]. res_step.
    apply IH.
    + apply (Hstep s x); [apply elem_of_cons; by left | done | done].
    + intros t y t' Hy. apply Hstep. apply elem_of_cons. by right.
Qed.

Lemma for_each_app {A S} (body : S → A → res S) (xs ys : list A) (s : S) :
  for_each body s (xs ++ ys) = (s' ← for_each body s xs; for_each body s' ys).
Proof.
  revert s. induction xs as [|x xs IH]; intros s; simpl; [done|].
  destruct (body s x); res_step; [apply IH | done].
Qed.

(** A line in which no keyword occurs leaves the map as it is. *)
Lemma scan_keywords_no_match (line : str) (kws : list str) (name_info : gmap str str) :
  (∀ k, k ∈ kws → contains k line = false) →
  scan_keywords line kws name_info = Ok name_info.
Proof.
  induction kws as [|k kws IH]; intros Hno; simpl; [done|].
  rewrite (Hno k) by (apply elem_of_cons; by left).
  apply IH. intros k' Hk'. apply Hno, elem_of_cons. by right.
Qed.

(** Whatever a line writes, it writes under a keyword that occurs in it. *)
Lemma scan_keywords_result (line : str) (kws : list str)
    (name_info d : gmap str str) :
  scan_keywords line kws name_info = Ok d →
  d = name_info
  ∨ ∃ k pre tail, k ∈ kws ∧ k ≠ [] ∧ line = pre ++ k ++ tail
      ∧ contains k tail = false ∧ d = <[k := strip tail]> name_info.
Proof.
  induction kws as [|k kws IH]; simpl.
  - intros [= <-]. by left.
  - destruct (contains k line) eqn:Hin.
    + destruct k as [|c k]; [done|]. intros Hd. right.
      destruct (split_last_after_separator (c :: k) line ltac:(done) Hin)
        as (pre & tail & Htail & Hline & Hno).
      change (py_split (c :: k) line) with (Ok (split (c :: k) line)) in Hd.
      revert Hd. res_step. rewrite Htail. res_step. intros [= <-].
      exists (c :: k), pre, tail. repeat split; try done.
      apply elem_of_cons. by left.
    + intros Hd. destruct (IH Hd) as [-> | (k' & pre & tail & Hk' & Hrest)];
        [by left | right].
      exists k', pre, tail. split; [apply elem_of_cons; by right | done].
Qed.

Lemma scan_keywords_first (line : str) (higher lower : list str) (k : str)
    (name_info : gmap str str) :
  (∀ k', k' ∈ higher → contains k' line = false) →
  contains k line = true →
  scan_keywords line (higher ++ k :: lower) name_info
  = (pieces ← py_split k line;
     tail ← item_last pieces;
     Ok (<[k := strip tail]> name_info)).
Proof.
  intros Hhigher Hk. induction higher as [|k' higher IH]; simpl.
  - by rewrite Hk.
  - rewrite (Hhigher k') by (apply elem_of_cons; by left).
    apply IH. intros k'' Hk''. apply Hhigher, elem_of_cons. by right.
Qed.

Lemma scan_keywords_match_nonempty (line : str) (kws : list str)
    (name_info d : gmap str str) (k : str) :
  k ∈ kws → contains k line = true →
  scan_keywords line kws name_info = Ok d → d ≠ ∅.
Proof.
  intros Hk Hin. induction kws as [|k0 kws IH]; [by apply elem_of_nil in Hk|].
  simpl. destruct (contains k0 line) eqn:Hk0.
  - destruct k0 as [|c k0]; [done|].
    change (py_split (c :: k0) line) with (Ok (split (c :: k0) line)). res_step.
    destruct (item_last_split (c :: k0) line) as [tail ->]. res_step.
    intros [= <-]. apply insert_non_empty.
  - apply IH. apply elem_of_cons in Hk as [-> | Hk]; [congruence | done].
Qed.

Lemma scan_keywords_keeps_nonempty (line : str) (kws : list str)
    (name_info d : gmap str str) :
  name_info ≠ ∅ → scan_keywords line kws name_info = Ok d → d ≠ ∅.
Proof.
  intros Hne Hd.
  destruct (scan_keywords_result line kws name_info d Hd)
    as [-> | (k & pre & tail & _ & _ & _ & _ & ->)]; [done | apply insert_non_empty].
Qed.

Lemma extract_loop_empty (kws : list str) (lines : list str) (name_info : gmap str str) :
  for_each (λ name_info line, scan_keywords line kws name_info) name_info lines = Ok ∅
  ↔ name_info = ∅ ∧ ∀ line k, line ∈ lines → k ∈ kws → contains k line = false.
Proof.
  revert name_info. induction lines as [|line lines IH]; intros name_info; simpl.
  - split.
    + intros [= ->]. split; [done|]. intros line k Hline. by apply elem_of_nil in Hline.
    + by intros [-> _].
  - split.
    + destruct (scan_keywords line kws name_info) as [d|e] eqn:Hd; [|done]. res_step.
      intros [-> Hrest]%IH.
      assert (∀ k, k ∈ kws → contains k line = false) as Hline.
      { intros k Hk. apply not_true_is_false. intros Hin.
        by apply (scan_keywords_match_nonempty line kws name_info ∅ k Hk Hin). }
      rewrite scan_keywords_no_match in Hd by done. injection Hd as ->.
      split; [done|]. intros l k [-> | Hl]%elem_of_cons; eauto.
    + intros [-> Hno].
      rewrite scan_keywords_no_match
        by (intros k Hk; apply (Hno line k); [apply elem_of_cons; by left | done]).
      res_step. apply IH. split; [done|]. intros l k Hl. apply Hno, elem_of_cons.
      by right.
Qed.

(** X1: [extract_names] returns the empty map exactly when no keyword occurs
    in any line of the text. *)
Theorem extract_names_empty_iff (text : str) (kws : list str) :
  extract_names text kws = Ok ∅
  ↔ ∀ line k, line ∈ split [ch_newline] text → k ∈ kws → contains k line = false.
Proof.
  unfold extract_names.
  change (py_split [ch_newline] text) with (Ok (split [ch_newline] text)). res_step.
  rewrite extract_loop_empty. split; [by intros [_ Hno] | by intros Hno].
Qed.

(** X2: every entry of the map that [extract_names] returns is written under
    one of the keywords, and its value is the text that follows the last
    occurrence of that keyword in some line of the text, without the white
    space around it. *)
Theorem extract_names_entries (text : str) (kws : list str) (d : gmap str str)
    (k v : str) :
  extract_names text kws = Ok d →
  d !! k = Some v →
  k ∈ kws ∧ k ≠ [] ∧ strip v = v
  ∧ ∃ line pre tail,
      line ∈ split [ch_newline] text
      ∧ line = pre ++ k ++ tail ∧ contains k tail = false ∧ v = strip tail.
Proof.
  unfold extract_names.
  change (py_split [ch_newline] text) with (Ok (split [ch_newline] text)). res_step.
  intros Hloop. revert k v.
  refine (for_each_invariant
    (λ d : gmap str str, ∀ k v, d !! k = Some v →
       k ∈ kws ∧ k ≠ [] ∧ strip v = v
       ∧ ∃ line pre tail, line ∈ split [ch_newline] text
           ∧ line = pre ++ k ++ tail ∧ contains k tail = false ∧ v = strip tail)
    _ _ _ _ _ _ Hloop); [intros k v Hkv; by rewrite lookup_empty in Hkv|].
  intros s line s' Hline Hs Hscan k v Hkv.
  destruct (scan_keywords_result line kws s s' Hscan)
    as [-> | (k' & pre & tail & Hk' & Hne & Hpre & Hno & ->)]; [by apply Hs|].
  destruct (decide (k' = k)) as [-> | Hneq].
  - rewrite lookup_insert_eq in Hkv. injection Hkv as <-.
    split; [done|]. split; [done|]. split; [apply strip_idemp|].
    exists line, pre, tail. done.
  - rewrite lookup_insert_ne in Hkv by done. by apply Hs.
Qed.

Lemma extract_names_entries_witness :
  extract_names (render doc_jean) keywords
  = Ok {[ kw_prenom := lit ": Jean"; kw_nom := lit ": Dupont" ]}
  ∧ ({[ kw_prenom := lit ": Jean"; kw_nom := lit ": Dupont" ]} : gmap str str) !! kw_nom
    = Some (lit ": Dupont")
  ∧ strip (lit ": Dupont") = lit ": Dupont".
Proof.
  assert (extract_names (render doc_jean) keywords
          = Ok {[ kw_prenom := lit ": Jean"; kw_nom := lit ": Dupont" ]}) as Hd
    by (vm_compute; reflexivity).
  assert (({[ kw_prenom := lit ": Jean"; kw_nom := lit ": Dupont" ]} : gmap str str)
          !! kw_nom = Some (lit ": Dupont")) as Hv by (vm_compute; reflexivity).
  split; [exact Hd|]. split; [exact Hv|].
  exact (proj1 (proj2 (proj2 (extract_names_entries _ _ _ _ _ Hd Hv)))).
Defined.



(** X4: an empty keyword makes [extract_names] raise [ValueError]: it occurs
    in every line, and splitting on it is refused. This happens as soon as
    no keyword of higher priority occurs in the lines of the text. *)
Theorem extract_names_empty_keyword (text : str) (higher lower : list str) :
  (∀ k line, k ∈ higher → line ∈ split [ch_newline] text → contains k line = false) →
  extract_names text (higher ++ [] :: lower) = Raise ValueError.
Proof.
  intros Hhigher. unfold extract_names.
  change (py_split [ch_newline] text) with (Ok (split [ch_newline] text)). res_step.
  pose proof (split_go_length [ch_newline] 0 [] text) as Hlen. fold (split [ch_newline] text) in Hlen.
  destruct (split [ch_newline] text) as [|line lines]; [simpl in Hlen; lia|].
  cbn [for_each].
  rewrite (scan_keywords_first line higher lower [] ∅); [done| |by destruct line].
  intros k Hk. apply (Hhigher k line Hk). apply elem_of_cons. by left.
Qed.

Lemma extract_names_empty_keyword_witness :
  (∀ k line, k ∈ [kw_prenom] → line ∈ split [ch_newline] (lit "Nom: Dupont") →
             contains k line = false)
  ∧ extract_names (lit "Nom: Dupont") [kw_prenom; []; kw_nom] = Raise ValueError.
Proof.
  assert (∀ k line, k ∈ [kw_prenom] → line ∈ split [ch_newline] (lit "Nom: Dupont") →
                    contains k line = false) as Hhigher.
  { intros k line ->%list_elem_of_singleton Hline. vm_compute in Hline.
    apply list_elem_of_singleton in Hline as ->. vm_compute. reflexivity. }
  split; [exact Hhigher|].
  exact (extract_names_empty_keyword (lit "Nom: Dupont") [kw_prenom] [kw_nom] Hhigher).
Defined.

(** ** Normalized values and formatted names *)

Lemma lstrip_visible (c : N) (s : str) : isspace c = false → lstrip (c :: s) = c :: s.
Proof. intros Hc. simpl. by rewrite Hc. Qed.

Lemma last_rev_head {A} (l : list A) : last (rev l) = head l.
Proof. destruct l as [|x l]; [done|]. simpl. apply last_snoc. Qed.

Lemma rstrip_last (s : str) (c : N) : last (rstrip s) = Some c → isspace c = false.
Proof.
  unfold rstrip. rewrite last_rev_head.
  destruct (lstrip_head (rev s)) as [-> | (c' & t & -> & Hc')]; [done|].
  by intros [= <-].
Qed.

Lemma strip_head (s : str) (c : N) : head (strip s) = Some c → isspace c = false.
Proof.
  unfold strip. destruct (lstrip_head s) as [-> | (c' & t & -> & Hc')]; [done|].
  rewrite (rstrip_cons_visible c' t Hc'). by intros [= <-].
Qed.

Lemma rstrip_visible_last (s : str) (c : N) :
  isspace c = false → rstrip (s ++ [c]) = s ++ [c].
Proof.
  intros Hc. unfold rstrip. rewrite rev_app_distr. simpl rev at 2. simpl app.
  rewrite (lstrip_visible c _ Hc). simpl. by rewrite rev_involutive.
Qed.

(** X5: a normalized value holds no colon and neither starts nor ends with
    white space. *)
Theorem normalize_value_clean (x : str) :
  (ch_colon ∉ normalize_value x)
  ∧ (∀ c, head (normalize_value x) = Some c → isspace c = false)
  ∧ (∀ c, last (normalize_value x) = Some c → isspace c = false).
Proof.
  split; [|split].
  - intros Hin. pose proof (normalize_value_no_colon x) as Hall.
    rewrite Forall_forall in Hall. by apply (Hall ch_colon Hin).
  - intros c. apply strip_head.
  - intros c. apply rstrip_last.
Qed.

Lemma str_truthy_app_cons (a b : str) (c : N) : str_truthy (a ++ c :: b) = true.
Proof. by destruct a. Qed.

Lemma candidate_name_truthy (candidat : str) :
  name_truthy
    (match split_ws (normalize_value candidat) with
     | [p0; p1] => Some (p1 ++ [ch_space] ++ p0)
     | _ => Some (normalize_value candidat)
     end)
  = str_truthy (normalize_value candidat).
Proof.
  destruct (split_ws (normalize_value candidat)) as [|p0 [|p1 [|p2 ps]]] eqn:Hparts;
    try done.
  simpl. rewrite str_truthy_app_cons.
  destruct (normalize_value candidat); [discriminate Hparts | done].
Qed.

Lemma candidate_part_unusable (o : option str) :
  name_truthy
    (match o with
     | Some candidat =>
       let full_name := normalize_value candidat in
       let parts := split_ws full_name in
       match parts with
       | [p0; p1] => Some (p1 ++ [ch_space] ++ p0)
       | _ => Some full_name
       end
     | None => None
     end) = false
  ↔ ∀ candidat, o = Some candidat → normalize_value candidat = [].
Proof.
  destruct o as [candidat|]; [|split; [by intros _ ? [=] | done]].
  cbv zeta. rewrite candidate_name_truthy. split.
  - intros Ht c [= <-]. by destruct (normalize_value candidat).
  - intros Hempty. by rewrite (Hempty candidat eq_refl).
Qed.

(** X6: the name formatter gives no usable name, absent or empty, exactly
    when the map lacks the first-name/last-name pair and its combined
    candidate value, if any, normalizes to the empty string. With both
    labels present the formatted name is never empty, even for empty
    values. *)
Theorem reformat_name_unusable_iff (name_info : gmap str str) :
  name_truthy (reformat_name name_info) = false
  ↔ ¬ (is_Some (name_info !! kw_prenom) ∧ is_Some (name_info !! kw_nom))
    ∧ ∀ candidat, name_info !! kw_candidat = Some candidat →
                  normalize_value candidat = [].
Proof.
  unfold reformat_name.
  destruct (name_info !! kw_prenom) as [prenom|];
    destruct (name_info !! kw_nom) as [nom|].
  - simpl. rewrite str_truthy_app_cons. split; [done|].
    intros [Hpair _]. destruct Hpair. split; eauto.
  - rewrite candidate_part_unusable. split; [|by intros [_ ?]].
    intros Hc. split; [by intros [_ [? ?]] | done].
  - rewrite candidate_part_unusable. split; [|by intros [_ ?]].
    intros Hc. split; [by intros [[? ?] _] | done].
  - rewrite candidate_part_unusable. split; [|by intros [_ ?]].
    intros Hc. split; [by intros [[? ?] _] | done].
Qed.

Lemma split_ws_go_visible (a cur rest : str) :
  Forall (λ c, isspace c = false) a →
  split_ws_go cur (a ++ rest) = split_ws_go (rev a ++ cur) rest.
Proof.
  intros Ha. revert cur. induction Ha as [|c a Hc Ha IH]; intros cur; [done|].
  simpl. rewrite Hc, IH. by rewrite <- app_assoc.
Qed.

Lemma split_ws_go_tokens (P : N → Prop) (s cur : str) :
  Forall (λ c, isspace c = false) cur → Forall P cur → Forall P s →
  Forall (λ t, t ≠ [] ∧ Forall (λ c, isspace c = false) t ∧ Forall P t)
         (split_ws_go cur s).
Proof.
  intros Hcur HPcur HPs. revert cur Hcur HPcur.
  induction HPs as [|c s Hc Hs IH]; intros cur Hcur HPcur; simpl.
  - destruct cur as [|x cur]; [constructor|]. constructor; [|constructor].
    split; [|split; by apply Forall_rev]. simpl. by destruct (rev cur).
  - destruct (isspace c) eqn:Hsp.
    + destruct cur as [|x cur]; [by apply IH|]. constructor; [|by apply IH].
      split; [|split; by apply Forall_rev]. simpl. by destruct (rev cur).
    + apply IH; by constructor.
Qed.

Lemma rev_nonempty (a : str) : a ≠ [] → ∃ x ra, rev a = x :: ra.
Proof.
  intros Ha. destruct (rev a) as [|x ra] eqn:Hrev; [|eauto].
  apply (f_equal (@rev N)) in Hrev. by rewrite rev_involutive in Hrev.
Qed.

Lemma split_ws_single (b : str) :
  b ≠ [] → Forall (λ c, isspace c = false) b → split_ws_go [] b = [b].
Proof.
  intros Hbne Hb. pose proof (split_ws_go_visible b [] [] Hb) as Hgo.
  rewrite !app_nil_r in Hgo. rewrite Hgo. cbn [split_ws_go].
  destruct (rev_nonempty b Hbne) as (y & rb & Hrev).
  rewrite Hrev, <- Hrev. by rewrite rev_involutive.
Qed.

Lemma split_ws_pair (a b : str) :
  a ≠ [] → b ≠ [] →
  Forall (λ c, isspace c = false) a → Forall (λ c, isspace c = false) b →
  split_ws (a ++ [ch_space] ++ b) = [a; b].
Proof.
  intros Hane Hbne Ha Hb. unfold split_ws.
  rewrite (split_ws_go_visible a [] _ Ha), app_nil_r.
  cbn [app split_ws_go]. change (isspace ch_space) with true. cbv iota.
  destruct (rev_nonempty a Hane) as (x & ra & Hrev).
  rewrite Hrev, <- Hrev, rev_involutive. by rewrite (split_ws_single b Hbne Hb).
Qed.

Lemma strip_clean (s : str) :
  (∀ c, head s = Some c → isspace c = false) →
  (∀ c, last s = Some c → isspace c = false) →
  strip s = s.
Proof.
  intros Hhead Hlast. unfold strip.
  destruct s as [|c s]; [done|].
  rewrite (lstrip_visible c s) by (by apply Hhead).
  destruct (c :: s) as [|l init _] eqn:Hs using rev_ind; [done|].
  apply rstrip_visible_last, Hlast, last_snoc.
Qed.

(** X7: the name formatter is not idempotent on a combined candidate value of
    two words: it returns them swapped, and applied to a map that holds its
    own output it swaps them back. *)
Theorem reformat_name_swaps_back (candidat a b : str) :
  split_ws (normalize_value candidat) = [a; b] →
  reformat_name {[ kw_candidat := candidat ]} = Some (b ++ [ch_space] ++ a)
  ∧ reformat_name {[ kw_candidat := b ++ [ch_space] ++ a ]}
    = Some (a ++ [ch_space] ++ b).
Proof.
  intros Hparts.
  assert (∀ v : str, reformat_name {[ kw_candidat := v ]}
            = match split_ws (normalize_value v) with
              | [p0; p1] => Some (p1 ++ [ch_space] ++ p0)
              | _ => Some (normalize_value v)
              end) as Hsingle.
  { intros v. unfold reformat_name.
    rewrite lookup_singleton_ne by done. by rewrite lookup_singleton_eq. }
  split; [by rewrite Hsingle, Hparts|].
  pose proof (split_ws_go_tokens (λ c, c ≠ ch_colon) (normalize_value candidat) []
                ltac:(constructor) ltac:(constructor)
                (normalize_value_no_colon candidat)) as Htokens.
  fold (split_ws (normalize_value candidat)) in Htokens. rewrite Hparts in Htokens.
  apply Forall_cons in Htokens as [(Hane & Ha & Hac) Htokens].
  apply Forall_cons in Htokens as [(Hbne & Hb & Hbc) _].
  assert (normalize_value (b ++ [ch_space] ++ a) = b ++ [ch_space] ++ a) as Hclean.
  { unfold normalize_value. rewrite replace_char_nil.
    rewrite filter_all
      by (apply Forall_app; split; [done|]; apply Forall_cons; split; done).
    apply strip_clean.
    - destruct b as [|c b]; [done|]. intros c' [= <-].
      by apply Forall_cons in Hb as [? _].
    - intros c. change (b ++ [ch_space] ++ a) with (b ++ ch_space :: a).
      destruct a as [|x a _] using rev_ind; [done|].
      change (b ++ ch_space :: a ++ [x]) with (b ++ (ch_space :: a) ++ [x]).
      rewrite app_assoc, last_snoc. intros [= <-].
      by apply Forall_app in Ha as [_ [? _]%Forall_cons]. }
  rewrite Hsingle, Hclean, (split_ws_pair b a Hbne Hane Hb Ha). done.
Qed.

Lemma reformat_name_swaps_back_witness :
  split_ws (normalize_value (lit " Dupont  Jean: ")) = [lit "Dupont"; lit "Jean"]
  ∧ reformat_name {[ kw_candidat := lit " Dupont  Jean: " ]} = Some (lit "Jean Dupont")
  ∧ reformat_name {[ kw_candidat := lit "Jean Dupont" ]} = Some (lit "Dupont Jean").
Proof.
  assert (split_ws (normalize_value (lit " Dupont  Jean: "))
          = [lit "Dupont"; lit "Jean"]) as Hparts by (vm_compute; reflexivity).
  split; [exact Hparts|].
  exact (reformat_name_swaps_back _ _ _ Hparts).
Defined.

(** ** The field map of one image *)

Lemma extract_names_keys (text : str) (kws : list str) (d : gmap str str) (k : str) :
  extract_names text kws = Ok d → is_Some (d !! k) → k ∈ kws.
Proof.
  unfold extract_names.
  change (py_split [ch_newline] text) with (Ok (split [ch_newline] text)). res_step.
  intros Hloop. revert k.
  refine (for_each_invariant (λ d : gmap str str, ∀ k, is_Some (d !! k) → k ∈ kws)
            _ _ _ _ _ _ Hloop); [intros k [v Hv]; by rewrite lookup_empty in Hv|].
  intros s line s' _ Hs Hscan k Hk.
  destruct (scan_keywords_result line kws s s' Hscan)
    as [-> | (k' & pre & tail & Hk' & _ & _ & _ & ->)]; [by apply Hs|].
  destruct (decide (k' = k)) as [<- | Hneq]; [done|].
  rewrite lookup_insert_ne in Hk by done. by apply Hs.
Qed.

Lemma dict_truthy_true (d : gmap str str) : dict_truthy d = true → d ≠ ∅.
Proof.
  unfold dict_truthy. rewrite negb_true_iff. apply bool_decide_eq_false_1.
Qed.

Section ResolverFacts.
Context `{CaseTables} `{OcrEngine}.

(** The [if ':' in line] statement writes at most the last-name entry. *)
Lemma assign_by_colon_result (line : str) (name_info d : gmap str str) :
  assign_by_colon line name_info = Ok d →
  d = name_info ∨ ∃ v, d = <[kw_nom := v]> name_info.
Proof.
  destruct (contains [ch_colon] line) eqn:Hc;
    [|unfold assign_by_colon; rewrite Hc; intros [= <-]; by left].
  destruct (assign_by_colon_parts line name_info Hc) as (p0 & p1 & _ & _ & ->).
  destruct (contains s_nom (lower (strip p0))) eqn:Hnom.
  - intros [= <-]. right. eauto.
  - assert (contains s_prenom_accent (lower (strip p0))
            || contains s_prenom (lower (strip p0)) = false) as ->;
      [|intros [= <-]; by left].
    apply orb_false_iff. split; apply not_true_is_false; intros Hp;
      (eapply contains_trans in Hp; [by rewrite Hnom in Hp | reflexivity]).
Qed.

Lemma assign_candidat_result (lines : list str) (i : nat) (line : str)
    (name_info d : gmap str str) :
  assign_candidat lines i line name_info = Ok d →
  d = name_info ∨ ∃ v, d = <[kw_candidat := v]> name_info.
Proof.
  unfold assign_candidat.
  destruct (contains s_candidat (lower line) && bool_decide (i + 1 < length lines)%nat);
    [|intros [= <-]; by left].
  destruct (item lines (i + 1)) as [next|e]; [|done]. res_step.
  intros [= <-]. right. eauto.
Qed.

Lemma colon_loop_keys (lines : list str) (entries : list (nat * str))
    (name_info d : gmap str str) (k : str) :
  for_each (colon_step lines) name_info entries = Ok d →
  is_Some (d !! k) → k = kw_nom ∨ k = kw_candidat ∨ is_Some (name_info !! k).
Proof.
  intros Hloop. revert k.
  refine (for_each_invariant
            (λ d : gmap str str,
               ∀ k, is_Some (d !! k) →
                    k = kw_nom ∨ k = kw_candidat ∨ is_Some (name_info !! k))
            _ _ _ _ _ _ Hloop); [by auto|].
  intros s [i line] s' _ Hs Hstep k Hk. unfold colon_step in Hstep.
  destruct (assign_by_colon line s) as [s1|e] eqn:Hcolon; [|done].
  revert Hstep. res_step. intros Hcand.
  assert (is_Some (s1 !! k) → k = kw_nom ∨ k = kw_candidat ∨ is_Some (name_info !! k))
    as Hs1.
  { destruct (assign_by_colon_result line s s1 Hcolon) as [-> | [v ->]]; [by apply Hs|].
    destruct (decide (kw_nom = k)) as [<- | Hneq]; [by left|].
    rewrite lookup_insert_ne by done. by apply Hs. }
  destruct (assign_candidat_result lines i line s1 s' Hcand) as [-> | [v ->]];
    [by apply Hs1|].
  destruct (decide (kw_candidat = k)) as [<- | Hneq]; [by auto|].
  rewrite lookup_insert_ne in Hk by done. by apply Hs1.
Qed.

Lemma colon_fallback_result (text : str) (d : gmap str str) :
  colon_fallback text ∅ = Ok (Some d) →
  d ≠ ∅ ∧ ∀ k, is_Some (d !! k) → k = kw_nom ∨ k = kw_candidat.
Proof.
  unfold colon_fallback.
  change (py_split [ch_newline] text) with (Ok (split [ch_newline] text)). res_step.
  destruct (for_each _ ∅ _) as [d'|e] eqn:Hloop; [|done]. res_step.
  destruct (dict_truthy d') eqn:Ht; [|done]. intros [= <-].
  split; [by apply dict_truthy_true|]. intros k Hk.
  destruct (colon_loop_keys _ _ _ _ k Hloop Hk) as [? | [? | [v Hv]]]; auto.
  by rewrite lookup_empty in Hv.
Qed.

(** The three ways in which [process_image] returns a map. *)
Lemma process_image_Some (image_path : str) (d : gmap str str) :
  process_image image_path = Some d →
  ∃ result, run_ocr image_path = Ok result
    ∧ ((extract_names (render result) keywords = Ok d ∧ d ≠ ∅)
       ∨ (extract_names (render result) keywords = Ok ∅
          ∧ (7 ≤ length (extract_capital_words result))%nat
          ∧ ∃ w5 w6, d = {[ kw_prenom := w5; kw_nom := w6 ]})
       ∨ (extract_names (render result) keywords = Ok ∅
          ∧ (length (extract_capital_words result) < 7)%nat
          ∧ colon_fallback (render result) ∅ = Ok (Some d))).
Proof.
  unfold process_image. intros Hd.
  destruct (run_ocr image_path) as [result|e] eqn:Hocr;
    [|unfold process_image_try in Hd; by rewrite Hocr in Hd].
  rewrite (process_image_try_ocr _ _ Hocr) in Hd. exists result. split; [done|].
  revert Hd. destruct (extract_names (render result) keywords) as [kw|e]; [|done].
  res_step. destruct (dict_truthy kw) eqn:Ht.
  { intros [= <-]. left. split; [done | by apply dict_truthy_true]. }
  apply dict_truthy_false in Ht as ->. case_bool_decide as Hlen.
  - destruct (item (extract_capital_words result) 5) as [w5|e]; [|done]. res_step.
    destruct (item (extract_capital_words result) 6) as [w6|e]; [|done]. res_step.
    intros [= <-]. right. left. eauto.
  - destruct (colon_fallback (render result) ∅) as [o|e] eqn:Hcolon; [|done].
    simpl. intros ->. right. right. split; [done|]. split; [lia | done].
Qed.

(** X8: a map that [process_image] returns is never empty, and its keys are
    among the three keywords. *)
Theorem process_image_map_shape (image_path : str) (d : gmap str str) :
  process_image image_path = Some d →
  d ≠ ∅ ∧ ∀ k, is_Some (d !! k) → k ∈ keywords.
Proof.
  intros (result & _ & [[Hkw Hne] | [(_ & _ & w5 & w6 & ->) | (_ & _ & Hcolon)]])
    %process_image_Some.
  - split; [done|]. intros k. apply (extract_names_keys _ _ _ _ Hkw).
  - split; [apply insert_non_empty|]. intros k Hk.
    destruct (decide (kw_prenom = k)) as [<- | Hneq]; [set_solver|].
    rewrite lookup_insert_ne in Hk by done.
    destruct (decide (kw_nom = k)) as [<- | Hneq']; [set_solver|].
    rewrite lookup_singleton_ne in Hk by done. by destruct Hk.
  - destruct (colon_fallback_result _ _ Hcolon) as [Hne Hkeys].
    split; [done|]. intros k Hk. destruct (Hkeys k Hk) as [-> | ->]; set_solver.
Qed.

(** X9: an image that is resolved by the colon-pattern fallback never gets a
    first-name entry, so it yields a formatted name only through the
    combined-candidate label: lines such as ["nom: ..."] alone leave the
    image without a name. *)
Theorem colon_route_needs_candidat (image_path : str) (result : document)
    (d : gmap str str) :
  run_ocr image_path = Ok result →
  extract_names (render result) keywords = Ok ∅ →
  (length (extract_capital_words result) < 7)%nat →
  process_image image_path = Some d →
  d !! kw_prenom = None
  ∧ (d !! kw_candidat = None → extracted_name_of image_path = None).
Proof.
  intros Hocr Hkw Hlen Hd.
  destruct (process_image_Some _ _ Hd)
    as (result' & Hocr' & [[Hkw' Hne] | [(_ & Hlen' & _) | (_ & _ & Hcolon)]]).
  - assert (result' = result) as -> by congruence. congruence.
  - assert (result' = result) as -> by congruence. lia.
  - destruct (colon_fallback_result _ _ Hcolon) as [Hne Hkeys].
    assert (d !! kw_prenom = None) as Hprenom.
    { destruct (d !! kw_prenom) as [v|] eqn:Hv; [|done].
      destruct (Hkeys kw_prenom) as [? | ?]; [eauto | done | done]. }
    split; [done|]. intros Hcand.
    unfold extracted_name_of, format_if_any. rewrite Hd.
    destruct (dict_truthy d); [|done].
    unfold reformat_name. by rewrite Hprenom, Hcand.
Qed.

End ResolverFacts.

Lemma process_image_map_shape_witness :
  @process_image latin1 sample_engine (lit "/up/AB1_Jean/f.jpeg")
  = Some {[ kw_prenom := lit "DUPONT"; kw_nom := lit "JEAN" ]}
  ∧ ({[ kw_prenom := lit "DUPONT"; kw_nom := lit "JEAN" ]} : gmap str str) ≠ ∅.
Proof.
  assert (@process_image latin1 sample_engine (lit "/up/AB1_Jean/f.jpeg")
          = Some {[ kw_prenom := lit "DUPONT"; kw_nom := lit "JEAN" ]}) as Hd
    by (vm_compute; reflexivity).
  split; [exact Hd|].
  exact (proj1 (@process_image_map_shape latin1 sample_engine _ _ Hd)).
Defined.

Lemma colon_route_needs_candidat_witness :
  @process_image latin1 sample_engine (lit "/up/AB1_Jean/e.jpeg")
  = Some {[ kw_nom := lit "Jean" ]}
  ∧ @extracted_name_of latin1 sample_engine (lit "/up/AB1_Jean/e.jpeg") = None.
Proof.
  assert (@process_image latin1 sample_engine (lit "/up/AB1_Jean/e.jpeg")
          = Some {[ kw_nom := lit "Jean" ]}) as Hd by (vm_compute; reflexivity).
  split; [exact Hd|].
  refine (proj2 (@colon_route_needs_candidat latin1 sample_engine
                   (lit "/up/AB1_Jean/e.jpeg") doc_unaccented _ _ _ _ Hd) _);
    vm_compute; try reflexivity. lia.
Defined.

(** ** The report of a folder *)

Section ReportFacts.
Context `{CaseTables} `{OcrEngine}.

Lemma detail_errors_file (c : bool) (first_name : str) (d : file_detail) :
  detail_errors c first_name d = []
  ∨ ∃ e, detail_errors c first_name d = [e] ∧ error_file e = file d.
Proof.
  unfold detail_errors. destruct (name_truthy (extracted_name d)); simpl.
  - destruct (extracted_name d) as [name|]; [|by left].
    destruct (negb c && negb (bool_decide (name = first_name))); [|by left].
    right. eauto.
  - right. eauto.
Qed.

Lemma errors_sublist (c : bool) (first_name : str) (details : list file_detail) :
  sublist (error_file <$> (details ≫= detail_errors c first_name)) (file <$> details).
Proof.
  induction details as [|d details IH]; [constructor|].
  rewrite bind_cons, fmap_app, fmap_cons.
  destruct (detail_errors_file c first_name d) as [-> | (e & -> & <-)]; simpl.
  - by apply sublist_cons.
  - by apply sublist_skip.
Qed.

Lemma validate_subdir_report (f : folder) (r : folder_result) :
  validate_subdir f = Some r →
  file_details r = file_detail_of <$> image_paths f
  ∧ match omap extracted_name_of (image_paths f) with
    | first_name :: rest =>
      is_correct r = all_equal_to first_name (first_name :: rest)
      ∧ verified_name r = (if is_correct r then Some first_name else None)
      ∧ errors r = file_details r ≫= detail_errors (is_correct r) first_name
    | [] => is_correct r = false ∧ verified_name r = None ∧ errors r = []
    end.
Proof.
  intros Hr.
  destruct (validate_subdir_fields f (validate_subdir_Some f r Hr))
    as (r' & Hr' & Hfields).
  by assert (r' = r) as -> by congruence.
Qed.

(** X10: the folder verifier reports every image of the folder, failed or
    not: [file_details] has one entry per image path, in order, under the
    base name of the path, and the extracted name of an entry is the formatted
    raw data of that entry. *)
Theorem file_details_cover_all_images (f : folder) (r : folder_result) :
  validate_subdir f = Some r →
  file <$> file_details r = basename <$> image_paths f
  ∧ Forall (λ d, extracted_name d = format_if_any (raw_data d)) (file_details r).
Proof.
  intros [-> _]%validate_subdir_report. split.
  - by rewrite <- list_fmap_compose.
  - apply Forall_fmap, Forall_forall. done.
Qed.

(** X11: every error record names an image of the folder, an image gets at
    most one record, and the records follow the order of the images. *)
Theorem errors_at_most_one_per_image (f : folder) (r : folder_result) :
  validate_subdir f = Some r →
  sublist (error_file <$> errors r) (basename <$> image_paths f).
Proof.
  intros [Hdetails Hverdict]%validate_subdir_report.
  assert (basename <$> image_paths f = file <$> file_details r) as ->
    by (by rewrite Hdetails, <- list_fmap_compose).
  destruct (omap extracted_name_of (image_paths f)) as [|first_name rest].
  - destruct Hverdict as (_ & _ & ->). apply sublist_nil_l.
  - destruct Hverdict as (_ & _ & ->). apply errors_sublist.
Qed.

Lemma detail_errors_correct (first_name : str) (d : file_detail) :
  detail_errors true first_name d = if has_name d then [] else [no_name_error d].
Proof.
  unfold detail_errors, has_name.
  destruct (name_truthy (extracted_name d)); simpl; [|done].
  by destruct (extracted_name d).
Qed.

Lemma errors_of_correct_details (f : folder) (r : folder_result) :
  validate_subdir f = Some r →
  is_correct r = true →
  errors r = no_name_error <$> filter (λ d, has_name d = false) (file_details r).
Proof.
  intros [_ Hverdict]%validate_subdir_report Hc.
  destruct (omap extracted_name_of (image_paths f)) as [|first_name rest].
  { destruct Hverdict as (Hfalse & _). congruence. }
  destruct Hverdict as (_ & _ & ->). rewrite Hc.
  induction (file_details r) as [|d details IH]; [done|].
  rewrite bind_cons, IH, detail_errors_correct.
  destruct (has_name d) eqn:Hd.
  - rewrite filter_cons_False; [done | by rewrite Hd].
  - by rewrite filter_cons_True.
Qed.

(** X12: images without a name do not prevent agreement. When [is_correct] is
    true the errors list holds, in image order, exactly one "No name could be
    extracted" record for each image of the folder from which no name was
    extracted, under the base name of the image, and no other record. *)
Theorem errors_of_correct_folder (f : folder) (r : folder_result) :
  validate_subdir f = Some r →
  is_correct r = true →
  errors r
  = (λ p, {| error_file := basename p; error := msg_no_name |})
      <$> filter (λ p, extracted_name_of p = None) (image_paths f).
Proof.
  intros Hr Hc. rewrite (errors_of_correct_details f r Hr Hc).
  destruct (validate_subdir_report f r Hr) as [-> _].
  apply no_name_records_of_paths.
Qed.

Lemma all_equal_to_false (first_name : str) (names : list str) :
  all_equal_to first_name names = false → ∃ n, n ∈ names ∧ n ≠ first_name.
Proof.
  unfold all_equal_to. induction names as [|x names IH]; [done|]. simpl.
  case_bool_decide as Hx; simpl.
  - intros (n & Hn & Hne)%IH. exists n. split; [by apply elem_of_cons; right | done].
  - intros _. exists x. split; [by apply elem_of_cons; left | done].
Qed.

Lemma bind_nil_inv {A B} (g : A → list B) (l : list A) (x : A) :
  l ≫= g = [] → x ∈ l → g x = [].
Proof.
  intros Hnil Hx. destruct (g x) as [|y ys] eqn:Hg; [done|].
  assert (y ∈ l ≫= g) as Hy.
  { apply list_elem_of_bind. exists x. split; [|done]. rewrite Hg.
    apply elem_of_cons. by left. }
  rewrite Hnil in Hy. by apply elem_of_nil in Hy.
Qed.

Lemma has_name_of_paths (paths : list str) :
  Forall (λ d, has_name d = true) (file_detail_of <$> paths)
  ↔ Forall (λ p, is_Some (extracted_name_of p)) paths.
Proof.
  rewrite Forall_fmap. apply Forall_iff. intros p. cbn [compose].
  rewrite <- not_eq_None_Some, <- has_name_file_detail_of.
  by destruct (has_name (file_detail_of p)).
Qed.

Lemma errors_empty_iff_details (f : folder) (r : folder_result) :
  validate_subdir f = Some r →
  errors r = []
  ↔ omap extracted_name_of (image_paths f) = []
    ∨ (is_correct r = true ∧ Forall (λ d, has_name d = true) (file_details r)).
Proof.
  intros [Hdetails Hverdict]%validate_subdir_report.
  pose proof (kept_names_of_details (image_paths f)) as Hkept.
  rewrite <- Hdetails in Hkept.
  destruct (omap extracted_name_of (image_paths f)) as [|first_name rest] eqn:Hnames.
  { destruct Hverdict as (_ & _ & ->). split; [by left | done]. }
  destruct Hverdict as (Hc & _ & ->). split.
  - intros Hnil. right.
    assert (Forall (λ d, has_name d = true) (file_details r)) as Hall.
    { apply Forall_forall. intros d Hd.
      pose proof (bind_nil_inv _ _ d Hnil Hd) as Hnone.
      destruct (has_name d) eqn:Hname; [done|].
      by rewrite (detail_errors_no_name _ _ d Hname) in Hnone. }
    split; [|done]. destruct (is_correct r) eqn:Hcorrect; [done|]. exfalso.
    symmetry in Hc. apply all_equal_to_false in Hc as (n & Hn & Hne).
    rewrite Hkept in Hn. apply list_elem_of_omap in Hn as (d & Hd & Hdn).
    destruct (has_name d) eqn:Hname; [|done].
    pose proof (bind_nil_inv _ _ d Hnil Hd) as Hnone.
    rewrite (detail_errors_named false first_name n d Hname Hdn) in Hnone.
    rewrite (bool_decide_eq_false_2 _ Hne) in Hnone. discriminate Hnone.
  - intros [? | [Hcorrect Hall]]; [done|]. rewrite Hcorrect.
    revert Hall. generalize (file_details r). intros details Hall.
    induction Hall as [|d details Hd Hall IH]; [done|].
    by rewrite bind_cons, IH, detail_errors_correct, Hd.
Qed.

(** X13: an empty errors list has two causes: no image of the folder yields
    a name, or the folder is correct and a name was extracted from every image
    of the folder. *)
Theorem errors_empty_iff (f : folder) (r : folder_result) :
  validate_subdir f = Some r →
  errors r = []
  ↔ omap extracted_name_of (image_paths f) = []
    ∨ (is_correct r = true
       ∧ Forall (λ p, is_Some (extracted_name_of p)) (image_paths f)).
Proof.
  intros Hr. rewrite (errors_empty_iff_details f r Hr).
  destruct (validate_subdir_report f r Hr) as [-> _].
  by rewrite has_name_of_paths.
Qed.

End ReportFacts.

Lemma file_details_cover_all_images_witness :
  ∃ r, @validate_subdir latin1 sample_engine folder_unreadable = Some r
       ∧ file <$> file_details r = [lit "d.jpg"; lit "missing.png"].
Proof.
  eexists. split; [exact validate_folder_unreadable|].
  rewrite (proj1 (@file_details_cover_all_images latin1 sample_engine _ _
                    validate_folder_unreadable)).
  vm_compute. reflexivity.
Defined.

Lemma errors_at_most_one_per_image_witness :
  ∃ r, @validate_subdir latin1 sample_engine folder_jean = Some r
       ∧ sublist (error_file <$> errors r) (basename <$> image_paths folder_jean).
Proof.
  eexists. split; [exact validate_folder_jean|].
  exact (@errors_at_most_one_per_image latin1 sample_engine _ _ validate_folder_jean).
Defined.

Example validate_folder_partly_blank :
  @validate_subdir latin1 sample_engine folder_partly_blank
  = Some
      {| cin := lit "AB1";
         is_correct := true;
         verified_name := Some (lit "Jean Dupont");
         errors :=
           [{| error_file := lit "d.jpg"; error := lit "No name could be extracted" |}];
         file_details :=
           [{| file := lit "a.png";
               extracted_name := Some (lit "Jean Dupont");
               raw_data := Some {[ kw_prenom := lit ": Jean"; kw_nom := lit ": Dupont" ]} |};
            {| file := lit "d.jpg"; extracted_name := None; raw_data := None |};
            {| file := lit "b.png";
               extracted_name := Some (lit "Jean Dupont");
               raw_data := Some {[ kw_prenom := lit ": Jean"; kw_nom := lit ": Dupont" ]} |}]
      |}.
Proof. vm_compute. reflexivity. Qed.

Lemma errors_of_correct_folder_witness :
  ∃ r, @validate_subdir latin1 sample_engine folder_partly_blank = Some r
       ∧ is_correct r = true
       ∧ errors r = [{| error_file := lit "d.jpg"; error := msg_no_name |}].
Proof.
  eexists. split; [exact validate_folder_partly_blank|]. split; [reflexivity|].
  rewrite (@errors_of_correct_folder latin1 sample_engine _ _
             validate_folder_partly_blank eq_refl).
  vm_compute. reflexivity.
Defined.

Lemma errors_empty_iff_witness :
  ∃ r, @validate_subdir latin1 sample_engine folder_unreadable = Some r
       ∧ errors r = [] ∧ is_correct r = false.
Proof.
  eexists. split; [exact validate_folder_unreadable|]. split; [|reflexivity].
  apply (@errors_empty_iff latin1 sample_engine _ _ validate_folder_unreadable).
  left. vm_compute. reflexivity.
Defined.

(** ** The candidate identifier *)

Lemma contains_char (c : N) (s : str) : contains [c] s = true ↔ c ∈ s.
Proof.
  rewrite contains_spec. split.
  - intros (l & r & ->). apply elem_of_app. right. apply elem_of_cons. by left.
  - intros (l & r & ->)%list_elem_of_split. by exists l, r.
Qed.

(** The first piece of a split on one character: the longest prefix without
    that character. *)
Lemma split_go_char_head (c : N) (s cur : str) :
  ∃ first, head (split_go [c] 0 cur s) = Some (rev cur ++ first)
    ∧ (c ∉ first)
    ∧ (s = first ∨ ∃ rest, s = first ++ [c] ++ rest).
Proof.
  revert cur. induction s as [|x s IH]; intros cur.
  - exists []. split; [by rewrite app_nil_r|]. split; [apply not_elem_of_nil | by left].
  - cbn [split_go startswith]. destruct (N.eqb_spec c x) as [<- | Hne]; simpl.
    + exists []. rewrite app_nil_r. split; [done|].
      split; [apply not_elem_of_nil | right; by exists s].
    + destruct (IH (x :: cur)) as (first & Hhead & Hnot & Hcase).
      exists (x :: first). split; [by rewrite Hhead; simpl; rewrite <- app_assoc|].
      split.
      * intros [Heq | Hin]%elem_of_cons; [congruence | done].
      * destruct Hcase as [-> | (rest & ->)]; [by left | right; by exists rest].
Qed.

Lemma split_first_piece (c : N) (s : str) :
  contains [c] s = true →
  ∃ first rest, head (split [c] s) = Some first ∧ (c ∉ first) ∧ s = first ++ [c] ++ rest.
Proof.
  intros Hin. destruct (split_go_char_head c s []) as (first & Hhead & Hnot & Hcase).
  destruct Hcase as [-> | (rest & ->)].
  - apply contains_char in Hin. done.
  - exists first, rest. done.
Qed.

Section IdentifierFacts.
Context `{CaseTables} `{OcrEngine}.

Lemma validate_subdir_cin (f : folder) (r : folder_result) :
  validate_subdir f = Some r →
  cin r = if contains [ch_underscore] (subdir f)
          then default [] (head (split [ch_underscore] (subdir f)))
          else subdir f.
Proof.
  unfold validate_subdir. destruct (image_paths f) as [|p ps]; [done|].
  cbv beta iota. destruct (foldl visit_image _ _) as [names details].
  destruct names as [|first_name rest]; by intros [= <-].
Qed.

Lemma batch_visit_image_fold_ids (paths : list str) (sr : Batch.student_record) :
  Batch.cin (foldl Batch.visit_image sr paths) = Batch.cin sr
  ∧ Batch.folder_name (foldl Batch.visit_image sr paths) = Batch.folder_name sr.
Proof.
  revert sr. induction paths as [|p paths IH]; intros sr; [done|].
  cbn [foldl]. destruct (IH (Batch.visit_image sr p)) as [-> ->].
  rewrite batch_visit_image_step. by destruct (extracted_name_of p).
Qed.

Lemma batch_conclude_ids (sr : Batch.student_record) :
  Batch.cin (Batch.conclude sr) = Batch.cin sr
  ∧ Batch.folder_name (Batch.conclude sr) = Batch.folder_name sr.
Proof.
  unfold Batch.conclude. destruct (Batch.extracted_names sr) as [|n ns]; [done|].
  by destruct (all_equal_to n (n :: ns)).
Qed.

Lemma compare_subdir_ids (f : folder) (r : Batch.student_record) :
  Batch.compare_subdir f = Some r →
  Batch.folder_name r = subdir f
  ∧ Batch.cin r = if contains [ch_underscore] (subdir f)
                  then default [] (head (split [ch_underscore] (subdir f)))
                  else Batch.s_unknown.
Proof.
  unfold Batch.compare_subdir. destruct (image_paths f) as [|p ps]; [done|].
  cbv beta iota zeta. generalize (p :: ps). intros paths [= <-].
  match goal with
  | |- context [Batch.conclude ?sr] =>
    destruct (batch_conclude_ids sr) as [Hcin Hfolder]; rewrite Hcin, Hfolder
  end.
  match goal with
  | |- context [foldl Batch.visit_image ?sr paths] =>
    destruct (batch_visit_image_fold_ids paths sr) as [Hcin' Hfolder'];
      rewrite Hcin', Hfolder'
  end.
  done.
Qed.

(** X14: the candidate identifier is the folder name up to its first
    underscore: with an underscore in the name, the name is the identifier,
    an underscore and a rest, and the identifier holds no underscore. Without
    one, the folder verifier uses the whole name and the batch comparison
    the word "Unknown". *)
Theorem cin_is_prefix_before_underscore (f : folder) (r : folder_result)
    (b : Batch.student_record) :
  validate_subdir f = Some r →
  Batch.compare_subdir f = Some b →
  if contains [ch_underscore] (subdir f)
  then Batch.cin b = cin r
       ∧ (ch_underscore ∉ cin r)
       ∧ ∃ rest, subdir f = cin r ++ [ch_underscore] ++ rest
  else cin r = subdir f ∧ Batch.cin b = lit "Unknown".
Proof.
  intros ->%validate_subdir_cin [_ ->]%compare_subdir_ids.
  destruct (contains [ch_underscore] (subdir f)) eqn:Hin; [|done].
  destruct (split_first_piece ch_underscore (subdir f) Hin)
    as (first & rest & -> & Hnot & Hname).
  split; [done|]. split; [done|]. by exists rest.
Qed.


(** X16: folders without images are skipped and every other folder gets
    exactly one result, in the order of the folders. *)
Theorem validate_folder_skips_empty (subdirs : list folder) :
  Forall2 (λ f r, validate_subdir f = Some r)
          (filter (λ f, image_paths f ≠ []) subdirs) (validate_folder subdirs)
  ∧ Forall2 (λ f b, Batch.compare_subdir f = Some b)
            (filter (λ f, image_paths f ≠ []) subdirs)
            (Batch.compare_names_in_folder subdirs).
Proof.
  unfold validate_folder, Batch.compare_names_in_folder.
  split; (induction subdirs as [|f subdirs IH]; [constructor|]);
    cbn [omap list_omap]; destruct (image_paths f) as [|p ps] eqn:Hpaths.
  - rewrite filter_cons_False by (cbv beta; rewrite Hpaths; intros Hn; by apply Hn).
    by assert (validate_subdir f = None) as ->
      by (unfold validate_subdir; by rewrite Hpaths).
  - rewrite filter_cons_True by (cbv beta; by rewrite Hpaths).
    destruct (validate_subdir_fields f ltac:(by rewrite Hpaths)) as (r & Hr & _).
    rewrite Hr. by constructor.
  - rewrite filter_cons_False by (cbv beta; rewrite Hpaths; intros Hn; by apply Hn).
    by assert (Batch.compare_subdir f = None) as ->
      by (unfold Batch.compare_subdir; by rewrite Hpaths).
  - rewrite filter_cons_True by (cbv beta; by rewrite Hpaths).
    destruct (compare_subdir_fields f ltac:(by rewrite Hpaths)) as (b & Hb & _).
    rewrite Hb. by constructor.
Qed.

Lemma verdict_permutation (names names' : list str) :
  names ≡ₚ names' →
  match names with
  | first_name :: _ => all_equal_to first_name names
  | [] => false
  end
  = match names' with
    | first_name :: _ => all_equal_to first_name names'
    | [] => false
    end
  ∧ (match names with
     | first_name :: _ => all_equal_to first_name names = true
     | [] => False
     end → head names = head names').
Proof.
  intros Hperm. destruct names as [|a l], names' as [|a' l'].
  - done.
  - by apply Permutation_nil_l in Hperm.
  - by apply Permutation_nil_r in Hperm.
  - assert (all_equal_to a (a :: l) = true → a' = a) as Hhead.
    { rewrite all_equal_to_spec. intros Hall. apply Hall. rewrite Hperm.
      apply elem_of_cons. by left. }
    split; [|by intros ->%Hhead].
    apply eq_true_iff_eq. rewrite !all_equal_to_spec. split.
    + intros Hall. assert (a' = a) as -> by (by apply Hhead, all_equal_to_spec).
      intros n Hn. apply Hall. by rewrite Hperm.
    + intros Hall.
      assert (a = a') as -> by (apply Hall; rewrite <- Hperm; apply elem_of_cons; by left).
      intros n Hn. apply Hall. by rewrite <- Hperm.
Qed.

(** X17: the verdict does not depend on the order in which the images of a
    folder are listed: two listings of the same images give the same
    [is_correct] and the same [verified_name]. *)
Theorem verdict_independent_of_order (f f' : folder) (r r' : folder_result) :
  image_paths f ≡ₚ image_paths f' →
  validate_subdir f = Some r →
  validate_subdir f' = Some r' →
  is_correct r = is_correct r' ∧ verified_name r = verified_name r'.
Proof.
  intros Hperm [_ Hr]%validate_subdir_report [_ Hr']%validate_subdir_report.
  assert (omap extracted_name_of (image_paths f)
          ≡ₚ omap extracted_name_of (image_paths f')) as Hnames
    by (by rewrite Hperm).
  destruct (verdict_permutation _ _ Hnames) as [Hverdict Hhead].
  destruct (omap extracted_name_of (image_paths f)) as [|a l],
           (omap extracted_name_of (image_paths f')) as [|a' l'].
  - destruct Hr as (-> & -> & _), Hr' as (-> & -> & _). done.
  - by apply Permutation_nil_l in Hnames.
  - by apply Permutation_nil_r in Hnames.
  - destruct Hr as (Hc & -> & _), Hr' as (Hc' & -> & _).
    rewrite <- Hc, <- Hc' in Hverdict. split; [done|]. rewrite <- Hverdict.
    destruct (is_correct r); [|done].
    symmetry in Hc. by specialize (Hhead Hc).
Qed.

End IdentifierFacts.

Example compare_folder_jean :
  @Batch.compare_subdir latin1 sample_engine folder_jean
  = Some
      {| Batch.cin := lit "AB1";
         Batch.folder_name := lit "AB1_Jean";
         Batch.extracted_names := [lit "Jean Dupont"; lit "Marie Durand"; lit "Jean Dupont"];
         Batch.is_correct := false;
         Batch.verified_name := None;
         Batch.files_processed :=
           [{| Batch.file := lit "a.png"; Batch.extracted_name := lit "Jean Dupont" |};
            {| Batch.file := lit "c.jpg"; Batch.extracted_name := lit "Marie Durand" |};
            {| Batch.file := lit "b.png"; Batch.extracted_name := lit "Jean Dupont" |}]
      |}.
Proof. vm_compute. reflexivity. Qed.

Example cin_without_underscore :
  (cin <$> @validate_subdir latin1 sample_engine folder_plain_name,
   Batch.cin <$> @Batch.compare_subdir latin1 sample_engine folder_plain_name)
  = (Some (lit "Jean"), Some (lit "Unknown")).
Proof. vm_compute. reflexivity. Qed.

Lemma cin_is_prefix_before_underscore_witness :
  ∃ r b, @validate_subdir latin1 sample_engine folder_jean = Some r
         ∧ @Batch.compare_subdir latin1 sample_engine folder_jean = Some b
         ∧ Batch.cin b = cin r
         ∧ ∃ rest, subdir folder_jean = cin r ++ [ch_underscore] ++ rest.
Proof.
  eexists. eexists. split; [exact validate_folder_jean|].
  split; [exact compare_folder_jean|].
  pose proof (@cin_is_prefix_before_underscore latin1 sample_engine _ _ _
                validate_folder_jean compare_folder_jean) as Hcin.
  change (contains [ch_underscore] (subdir folder_jean)) with true in Hcin.
  destruct Hcin as (Hsame & _ & Hrest). split; [exact Hsame | exact Hrest].
Defined.

Lemma verdict_independent_of_order_witness :
  image_paths folder_jean ≡ₚ image_paths folder_jean_reordered
  ∧ ∃ r r', @validate_subdir latin1 sample_engine folder_jean = Some r
            ∧ @validate_subdir latin1 sample_engine folder_jean_reordered = Some r'
            ∧ is_correct r = is_correct r'
            ∧ verified_name r = verified_name r'.
Proof.
  assert (image_paths folder_jean ≡ₚ image_paths folder_jean_reordered) as Hperm
    by exact (Permutation_app_comm
                [lit "/up/AB1_Jean/d.jpg"; lit "/up/AB1_Jean/a.png"]
                [lit "/up/AB1_Jean/c.jpg"; lit "/up/AB1_Jean/b.png"]).
  split; [exact Hperm|].
  destruct (@validate_subdir latin1 sample_engine folder_jean_reordered)
    as [r'|] eqn:Hr'; [|vm_compute in Hr'; discriminate Hr'].
  eexists. exists r'. split; [exact validate_folder_jean|]. split; [reflexivity|].
  exact (@verdict_independent_of_order latin1 sample_engine _ _ _ _ Hperm
           validate_folder_jean Hr').
Defined.

(** ** The candidate line of the colon-pattern fallback *)

Lemma dict_truthy_lookup (d : gmap str str) (k v : str) :
  d !! k = Some v → dict_truthy d = true.
Proof.
  intros Hk. unfold dict_truthy. rewrite negb_true_iff, bool_decide_eq_false.
  intros ->. by rewrite lookup_empty in Hk.
Qed.

Section CandidatFacts.
Context `{CaseTables}.

Lemma colon_step_keeps_candidat (lines : list str) (s s' : gmap str str)
    (i : nat) (l : str) (v : str) :
  (contains s_candidat (lower l) = true → (length lines ≤ i + 1)%nat) →
  s !! kw_candidat = Some v →
  colon_step lines s (i, l) = Ok s' →
  s' !! kw_candidat = Some v.
Proof.
  intros Hlast Hs. unfold colon_step.
  destruct (assign_by_colon l s) as [s1|e] eqn:Hcolon; [|done]. res_step.
  assert (s1 !! kw_candidat = Some v) as Hs1.
  { destruct (assign_by_colon_result l s s1 Hcolon) as [-> | [w ->]]; [done|].
    by rewrite lookup_insert_ne. }
  unfold assign_candidat. destruct (contains s_candidat (lower l)) eqn:Hin;
    [|by intros [= <-]].
  rewrite bool_decide_eq_false_2 by (specialize (Hlast eq_refl); lia).
  by intros [= <-].
Qed.

(** X18: the colon-pattern fallback reads the combined candidate from the
    line after a line that mentions "candidat" in any letter case. When no
    later line mentions it and has a successor, the fallback returns a map
    that gives the combined-candidate label the stripped text of that next
    line. *)
Theorem colon_fallback_candidat_lookahead (text : str) (before after : list str)
    (line next : str) (name_info : gmap str str) :
  split [ch_newline] text = before ++ line :: next :: after →
  contains s_candidat (lower line) = true →
  (∀ j l, (next :: after) !! j = Some l →
          (j + 1 < length (next :: after))%nat →
          contains s_candidat (lower l) = false) →
  ∃ d, colon_fallback text name_info = Ok (Some d)
       ∧ d !! kw_candidat = Some (strip next).
Proof.
  intros Hlines Hline Hlater. unfold colon_fallback.
  change (py_split [ch_newline] text) with (Ok (split [ch_newline] text)). res_step.
  rewrite Hlines. set (lines := before ++ line :: next :: after).
  assert (∃ d, for_each (colon_step lines) name_info (imap pair lines) = Ok d
               ∧ d !! kw_candidat = Some (strip next)) as (d & -> & Hd);
    [|res_step; rewrite (dict_truthy_lookup d _ _ Hd); eauto].
  unfold lines at 2. rewrite imap_app, for_each_app, imap_cons.
  destruct (for_each_total (colon_step lines) (imap pair before) name_info
              (colon_step_total lines)) as [d0 ->]. res_step.
  cbn [for_each].
  assert (lines !! (length before + 0 + 1)%nat = Some next) as Hnext.
  { unfold lines. rewrite Nat.add_0_r, lookup_app_r by lia.
    by replace (length before + 1 - length before)%nat with 1%nat by lia. }
  assert (∃ d1, colon_step lines d0 ((length before + 0)%nat, line)
                = Ok (<[kw_candidat := strip next]> d1)) as [d1 ->].
  { destruct (assign_by_colon_total line d0) as [d1 Hd1]. exists d1.
    unfold colon_step. rewrite Hd1. res_step.
    unfold assign_candidat. rewrite Hline.
    rewrite bool_decide_eq_true_2 by (by apply lookup_lt_Some in Hnext).
    cbn [andb]. unfold item. by rewrite Hnext. }
  res_step.
  match goal with
  | |- context [for_each ?body ?s ?xs] =>
    destruct (for_each_total body xs s (colon_step_total lines)) as [d Hloop]
  end.
  exists d. split; [done|].
  refine (for_each_invariant (λ s : gmap str str, s !! kw_candidat = Some (strip next))
            _ _ _ _ _ _ Hloop); [apply lookup_insert_eq|].
  intros s [i l] s' Hentry Hs Hstep.
  apply list_elem_of_lookup in Hentry as [j Hj].
  apply list_lookup_imap_Some in Hj as (l' & Hl' & Heq).
  cbn in Heq. injection Heq as -> ->.
  apply (colon_step_keeps_candidat lines s s' (length before + S j) l' _);
    [|done|done].
  intros Hin. destruct (decide (j + 1 < length (next :: after))%nat) as [Hlt | Hge].
  - by rewrite (Hlater j l' Hl' Hlt) in Hin.
  - unfold lines. rewrite length_app. simpl in *. lia.
Qed.

End CandidatFacts.

Lemma colon_fallback_candidat_lookahead_witness :
  ∃ d, @colon_fallback latin1
         (text_lines [lit "Fiche"; lit "Le CANDIDAT :"; lit " Dupont Jean "; lit "candidat"]) ∅
       = Ok (Some d)
       ∧ d !! kw_candidat = Some (lit "Dupont Jean").
Proof.
  destruct (@colon_fallback_candidat_lookahead latin1
              (text_lines [lit "Fiche"; lit "Le CANDIDAT :"; lit " Dupont Jean ";
                           lit "candidat"])
              [lit "Fiche"] [lit "candidat"] (lit "Le CANDIDAT :") (lit " Dupont Jean ") ∅)
    as (d & Hd & Hcand).
  - vm_compute. reflexivity.
  - vm_compute. reflexivity.
  - intros [|[|j]] l Hl Hj; simpl in Hj; [|lia|lia].
    injection Hl as <-. vm_compute. reflexivity.
  - exists d. split; [exact Hd | exact Hcand].
Defined.

(** ** Stripping before normalizing *)

Lemma lstrip_decompose (s : str) :
  ∃ ws, s = ws ++ lstrip s ∧ Forall (λ c, isspace c = true) ws.
Proof.
  induction s as [|c s (ws & Hs & Hws)]; [by exists []|]. simpl.
  destruct (isspace c) eqn:Hc.
  - exists (c :: ws). split; [by rewrite <- app_comm_cons, <- Hs | by constructor].
  - by exists [].
Qed.

Lemma lstrip_pad (ws t : str) :
  Forall (λ c, isspace c = true) ws → lstrip (ws ++ t) = lstrip t.
Proof. induction 1 as [|c ws Hc Hws IH]; [done|]. simpl. by rewrite Hc. Qed.

Lemma rstrip_decompose (s : str) :
  ∃ ws, s = rstrip s ++ ws ∧ Forall (λ c, isspace c = true) ws.
Proof.
  destruct (lstrip_decompose (rev s)) as (ws & Hs & Hws).
  exists (rev ws). split; [|by apply Forall_rev].
  unfold rstrip. rewrite <- rev_app_distr, <- Hs. by rewrite rev_involutive.
Qed.

Lemma rstrip_pad (t ws : str) :
  Forall (λ c, isspace c = true) ws → rstrip (t ++ ws) = rstrip t.
Proof.
  intros Hws. unfold rstrip. rewrite rev_app_distr, lstrip_pad; [done|].
  by apply Forall_rev.
Qed.

Lemma lstrip_all_space (s : str) :
  Forall (λ c, isspace c = true) s → lstrip s = [].
Proof.
  intros Hs. rewrite <- (app_nil_r s). by rewrite lstrip_pad.
Qed.

Lemma strip_pad (ws1 t ws2 : str) :
  Forall (λ c, isspace c = true) ws1 → Forall (λ c, isspace c = true) ws2 →
  strip (ws1 ++ t ++ ws2) = strip t.
Proof.
  intros Hws1 Hws2. unfold strip. rewrite (lstrip_pad ws1 _ Hws1).
  destruct (lstrip_decompose t) as (w & Ht & Hw).
  destruct (lstrip_head t) as [Hnil | (c & t' & Hlt & Hc)].
  - rewrite Hnil in Ht |- *. rewrite app_nil_r in Ht. subst w.
    rewrite lstrip_all_space; [done|]. by apply Forall_app.
  - rewrite Hlt in Ht |- *. rewrite Ht at 1. rewrite <- app_assoc.
    rewrite (lstrip_pad w _ Hw). rewrite <- app_comm_cons.
    rewrite (lstrip_visible c _ Hc). rewrite app_comm_cons.
    by apply rstrip_pad.
Qed.

Lemma strip_decompose (s : str) :
  ∃ ws1 ws2, s = ws1 ++ strip s ++ ws2
    ∧ Forall (λ c, isspace c = true) ws1 ∧ Forall (λ c, isspace c = true) ws2.
Proof.
  destruct (lstrip_decompose s) as (ws1 & Hs & Hws1).
  destruct (rstrip_decompose (lstrip s)) as (ws2 & Hl & Hws2).
  exists ws1, ws2. split; [|done]. unfold strip. by rewrite <- Hl.
Qed.

(** X19: stripping a value before it is normalized changes nothing, so the
    formatted name depends only on the text that follows the keyword; and a
    normalized value is already stripped. *)
Theorem normalize_value_absorbs_strip (s : str) :
  normalize_value (strip s) = normalize_value s
  ∧ strip (normalize_value s) = normalize_value s.
Proof.
  split; [|apply strip_idemp].
  unfold normalize_value. rewrite !replace_char_nil.
  destruct (strip_decompose s) as (ws1 & ws2 & Hs & Hws1 & Hws2).
  assert (∀ ws, Forall (λ c, isspace c = true) ws →
                filter (λ x, x ≠ ch_colon) ws = ws) as Hkeep.
  { intros ws Hws. apply filter_all. eapply Forall_impl; [exact Hws|].
    intros c Hc ->. discriminate Hc. }
  rewrite Hs at 2. rewrite !filter_app, (Hkeep ws1 Hws1), (Hkeep ws2 Hws2).
  by rewrite strip_pad.
Qed.

(** ** The capitalized-token route, formatted *)

Section CapitalRoute.
Context `{CaseTables} `{OcrEngine}.

(** X20: an image that is resolved by the capitalized-token fallback always
    yields a formatted name, the normalized sixth and seventh capital words
    joined by a space; such an image is never reported as without a name. *)
Theorem capital_route_always_named (image_path : str) (result : document) :
  run_ocr image_path = Ok result →
  extract_names (render result) keywords = Ok ∅ →
  (7 ≤ length (extract_capital_words result))%nat →
  ∃ w5 w6,
    extract_capital_words result !! 5%nat = Some w5
    ∧ extract_capital_words result !! 6%nat = Some w6
    ∧ extracted_name_of image_path
      = Some (normalize_value w5 ++ [ch_space] ++ normalize_value w6)
    ∧ has_name (file_detail_of image_path) = true.
Proof.
  intros Hocr Hkw Hlen.
  destruct (item_lt (extract_capital_words result) 5 ltac:(lia)) as (w5 & Hw5 & Hi5).
  destruct (item_lt (extract_capital_words result) 6 ltac:(lia)) as (w6 & Hw6 & Hi6).
  exists w5, w6. split; [done|]. split; [done|].
  assert (process_image image_path = Some {[ kw_prenom := w5; kw_nom := w6 ]}) as Hd.
  { unfold process_image. rewrite (process_image_try_ocr _ _ Hocr), Hkw. res_step.
    change (dict_truthy ∅) with false. cbv iota.
    rewrite bool_decide_eq_true_2 by done. rewrite Hi5. res_step. by rewrite Hi6. }
  assert (format_if_any (process_image image_path)
          = Some (normalize_value w5 ++ [ch_space] ++ normalize_value w6)) as Hname.
  { rewrite Hd. unfold format_if_any.
    rewrite (dict_truthy_lookup _ kw_prenom w5) by apply lookup_insert_eq.
    unfold reformat_name. rewrite lookup_insert_eq.
    rewrite lookup_insert_ne by done. by rewrite lookup_singleton_eq. }
  pose proof (str_truthy_app_cons (normalize_value w5) (normalize_value w6) ch_space)
    as Htruthy.
  unfold has_name, file_detail_of, extracted_name_of. cbn [extracted_name].
  rewrite Hname. cbn [name_truthy app]. by rewrite Htruthy.
Qed.

End CapitalRoute.

Lemma capital_route_always_named_witness :
  @run_ocr sample_engine (lit "/up/AB1_Jean/f.jpeg") = Ok doc_capitals
  ∧ @extracted_name_of latin1 sample_engine (lit "/up/AB1_Jean/f.jpeg")
    = Some (lit "DUPONT JEAN").
Proof.
  assert (@run_ocr sample_engine (lit "/up/AB1_Jean/f.jpeg") = Ok doc_capitals)
    as Hocr by (vm_compute; reflexivity).
  split; [exact Hocr|].
  destruct (@capital_route_always_named latin1 sample_engine _ _ Hocr
              ltac:(vm_compute; reflexivity) ltac:(vm_compute; lia))
    as (w5 & w6 & Hw5 & Hw6 & Hname & _).
  vm_compute in Hw5, Hw6. injection Hw5 as <-. injection Hw6 as <-.
  rewrite Hname. vm_compute. reflexivity.
Defined.
